(** * Shoelace: tab group and tooltip controllers

    A shallow embedding of [sl-tab-group] (tab-group.ts) and [sl-tooltip]
    (tooltip.ts).  DOM objects live in explicit heaps and are named by
    references, so that the aliasing between [this.activeTab], the cached
    [this.tabs] array and the slotted elements is the one of the program.
    Synchronous methods are state transformers that also return the effects
    they perform, in order; a method that can raise a [TypeError] returns a
    [Result].  The asynchronous open/close handler of the tooltip is cut at
    its [await]s and driven by a scheduler. *)

From Stdlib Require Import List ZArith String Ascii Bool Arith Lia.
Import ListNotations.

Set Implicit Arguments.

Local Open Scope string_scope.
Local Open Scope list_scope.

(** ** The fragments of JavaScript the components rely on *)

Module JS.

(** The outcome of a call that may throw. *)
Inductive Result (A : Type) : Type :=
| Ok (a : A)
| Throw (message : string).
Arguments Ok {A} a.
Arguments Throw {A} message.

Definition TypeError : string := "TypeError"%string.

(** [String.prototype.toLowerCase] on ASCII text (tag names are ASCII). *)
Definition lower_ascii (c : ascii) : ascii :=
  let n := nat_of_ascii c in
  if (65 <=? n)%nat && (n <=? 90)%nat then ascii_of_nat (n + 32) else c.

Fixpoint toLowerCase (s : string) : string :=
  match s with
  | EmptyString => EmptyString
  | String c r => String (lower_ascii c) (toLowerCase r)
  end.

(** [Array.prototype.indexOf] on an array of object references: the first
    position holding the reference, [-1] when there is none. *)
Fixpoint indexOf (x : nat) (l : list nat) : Z :=
  match l with
  | [] => -1
  | y :: r =>
      if Nat.eqb y x then 0
      else let i := indexOf x r in
           if (i <? 0)%Z then -1 else (i + 1)
  end%Z.

(** [Array.prototype.slice(0, end)]: a negative [end] counts from the end of
    the array. *)
Definition slice0 {A : Type} (l : list A) (e : Z) : list A :=
  if (e <? 0)%Z
  then firstn (Z.to_nat (Z.max (Z.of_nat (List.length l) + e) 0)) l
  else firstn (Z.to_nat e) l.

(** [array[index]] for a numeric index: [undefined] outside the array. *)
Definition at_index {A : Type} (l : list A) (i : Z) : option A :=
  if (i <? 0)%Z then None else nth_error l (Z.to_nat i).

(** An optional property of an options object: left out, spelled out as
    [undefined], or given.  An object spread copies the last two. *)
Inductive Field (A : Type) : Type :=
| absent
| undefined
| given (a : A).
Arguments absent {A}.
Arguments undefined {A}.
Arguments given {A} a.

(** [{ key: dflt, ...options }.key]; [None] is [undefined]. *)
Definition spread {A : Type} (dflt : A) (f : Field A) : option A :=
  match f with
  | absent => Some dflt
  | undefined => None
  | given a => Some a
  end.

Definition bind {A B : Type} (r : Result A) (k : A -> Result B) : Result B :=
  match r with
  | Ok a => k a
  | Throw m => Throw m
  end.

(** [array.includes(x)] on strings. *)
Definition includes (l : list string) (x : string) : bool :=
  existsb (String.eqb x) l.

End JS.
Import JS.

Notation "x <- r ;; k" := (JS.bind r (fun x => k))
  (at level 61, r at next level, right associativity).
Notation "' p <- r ;; k" := (JS.bind r (fun p => k))
  (at level 61, p pattern, r at next level, right associativity).

(** ** sl-tab-group *)

Module TabGroup.

Definition ref := nat.

(** What the group reads and writes of an element it treats as [SlTab]. *)
Record SlTab : Type := mkTab {
  tagName : string;
  panel : string;
  disabled : bool;
  active : bool;
  clientWidth : Z;
  clientHeight : Z
}.

(** What the group reads and writes of an element it treats as
    [SlTabPanel]. *)
Record SlTabPanel : Type := mkPanel {
  panelTagName : string;
  name : string;
  panelActive : bool
}.

Inductive Placement : Type := top | bottom | start | end_.
Inductive Activation : Type := auto | manual.
Inductive Dir : Type := ltr | rtl.
Inductive ScrollBehavior : Type := behavior_auto | behavior_smooth.

(** [indicator.style]: the properties the group assigns.  A template literal
    [`${n}px`] is kept as its number, [`translateX(${n}px)`] as
    [translateX n]. *)
Inductive Display : Type := display_initial | display_block | display_none.
Inductive Length : Type := length_initial | length_auto | px (n : Z).
Inductive Transform : Type :=
| transform_initial
| translateX (n : Z)
| translateY (n : Z).

Record Style : Type := mkStyle {
  display : Display;
  width : Length;
  height : Length;
  transform : Transform
}.

(** The second argument of [setActiveTab]. *)
Record Options : Type := mkOptions {
  emitEvents : Field bool;
  scrollBehavior : Field ScrollBehavior
}.

(** What a method does to its surroundings, in program order. *)
Inductive Effect : Type :=
| emit (event : string) (detail_name : string)
| scrollIntoView (el : ref) (behavior : option ScrollBehavior)
| focus (el : ref)
| preventDefault.

(** The component together with the part of the document it looks at. *)
Record SlTabGroup : Type := mkGroup {
  (* the document *)
  tabHeap : ref -> SlTab;
  panelHeap : ref -> SlTabPanel;
  navSlot : list ref;        (* slot[name="nav"].assignedElements() *)
  bodySlot : list ref;       (* the default slot's assignedElements() *)
  focused : option ref;      (* the element matching :focus, if a tab *)
  dir : Dir;                 (* this.localize.dir() *)
  (* the component *)
  activeTab : option ref;
  tabs : list ref;
  panels : list ref;
  placement : Placement;
  activation : Activation;
  indicator : Style
}.

(** *** Field updates *)

Definition with_active (b : bool) (t : SlTab) : SlTab :=
  mkTab (tagName t) (panel t) (disabled t) b (clientWidth t) (clientHeight t).

Definition with_panelActive (b : bool) (p : SlTabPanel) : SlTabPanel :=
  mkPanel (panelTagName p) (name p) b.

Definition update {A : Type} (h : ref -> A) (r : ref) (a : A) : ref -> A :=
  fun r' => if Nat.eqb r' r then a else h r'.

Definition set_tabHeap (h : ref -> SlTab) (g : SlTabGroup) : SlTabGroup :=
  mkGroup h (panelHeap g) (navSlot g) (bodySlot g) (focused g) (dir g)
          (activeTab g) (tabs g) (panels g) (placement g) (activation g)
          (indicator g).

Definition set_panelHeap (h : ref -> SlTabPanel) (g : SlTabGroup)
  : SlTabGroup :=
  mkGroup (tabHeap g) h (navSlot g) (bodySlot g) (focused g) (dir g)
          (activeTab g) (tabs g) (panels g) (placement g) (activation g)
          (indicator g).

Definition set_focused (f : option ref) (g : SlTabGroup) : SlTabGroup :=
  mkGroup (tabHeap g) (panelHeap g) (navSlot g) (bodySlot g) f (dir g)
          (activeTab g) (tabs g) (panels g) (placement g) (activation g)
          (indicator g).

Definition set_activeTab (a : option ref) (g : SlTabGroup) : SlTabGroup :=
  mkGroup (tabHeap g) (panelHeap g) (navSlot g) (bodySlot g) (focused g)
          (dir g) a (tabs g) (panels g) (placement g) (activation g)
          (indicator g).

Definition set_tabs (l : list ref) (g : SlTabGroup) : SlTabGroup :=
  mkGroup (tabHeap g) (panelHeap g) (navSlot g) (bodySlot g) (focused g)
          (dir g) (activeTab g) l (panels g) (placement g) (activation g)
          (indicator g).

Definition set_panels (l : list ref) (g : SlTabGroup) : SlTabGroup :=
  mkGroup (tabHeap g) (panelHeap g) (navSlot g) (bodySlot g) (focused g)
          (dir g) (activeTab g) (tabs g) l (placement g) (activation g)
          (indicator g).

Definition set_indicator (s : Style) (g : SlTabGroup) : SlTabGroup :=
  mkGroup (tabHeap g) (panelHeap g) (navSlot g) (bodySlot g) (focused g)
          (dir g) (activeTab g) (tabs g) (panels g) (placement g)
          (activation g) s.

(** *** Methods *)

(** [['top', 'bottom'].includes(this.placement)] *)
Definition horizontal (p : Placement) : bool :=
  match p with
  | top | bottom => true
  | start | end_ => false
  end.

(** [['start', 'end'].includes(this.placement)] *)
Definition vertical (p : Placement) : bool :=
  match p with
  | start | end_ => true
  | top | bottom => false
  end.

Definition isRtl (g : SlTabGroup) : bool :=
  match dir g with rtl => true | ltr => false end.

(** [el.tagName.toLowerCase() === 'sl-tab'] *)
Definition is_sl_tab (g : SlTabGroup) (el : ref) : bool :=
  String.eqb (toLowerCase (tagName (tabHeap g el))) "sl-tab".

(** [el.tagName.toLowerCase() === 'sl-tab-panel'] *)
Definition is_sl_tab_panel (g : SlTabGroup) (el : ref) : bool :=
  String.eqb (toLowerCase (panelTagName (panelHeap g el))) "sl-tab-panel".

(** [getAllTabs(options)]; the default argument is
    [{ includeDisabled: true }]. *)
Definition getAllTabs (includeDisabled : bool) (g : SlTabGroup) : list ref :=
  filter (fun el =>
            if includeDisabled
            then is_sl_tab g el
            else is_sl_tab g el && negb (disabled (tabHeap g el)))
         (navSlot g).

Definition getAllPanels (g : SlTabGroup) : list ref :=
  filter (is_sl_tab_panel g) (bodySlot g).

Definition getActiveTab (g : SlTabGroup) : option ref :=
  find (fun el => active (tabHeap g el)) (tabs g).

(** The accumulator of the [reduce] in [repositionIndicator]. *)
Record Offset : Type := mkOffset { left : Z; top_ : Z }.

Definition repositionIndicator (g : SlTabGroup) : SlTabGroup :=
  match getActiveTab g with
  | None => g
  | Some currentTab =>
      let width_ := clientWidth (tabHeap g currentTab) in
      let height_ := clientHeight (tabHeap g currentTab) in
      let allTabs := getAllTabs true g in
      let precedingTabs := slice0 allTabs (indexOf currentTab allTabs) in
      let offset :=
        fold_left
          (fun previous current =>
             mkOffset (left previous + clientWidth (tabHeap g current))
                      (top_ previous + clientHeight (tabHeap g current)))
          precedingTabs (mkOffset 0 0) in
      let style := indicator g in
      match placement g with
      | top | bottom =>
          set_indicator
            (mkStyle (display style) (px width_) length_auto
                     (if isRtl g then translateX (-1 * left offset)
                      else translateX (left offset)))
            g
      | start | end_ =>
          set_indicator
            (mkStyle (display style) length_auto (px height_)
                     (translateY (top_ offset)))
            g
      end
  end%Z.

Definition set_display (d : Display) (g : SlTabGroup) : SlTabGroup :=
  let style := indicator g in
  set_indicator (mkStyle d (width style) (height style) (transform style)) g.

Definition syncIndicator (g : SlTabGroup) : SlTabGroup :=
  match getActiveTab g with
  | Some _ => repositionIndicator (set_display display_block g)
  | None => set_display display_none g
  end.

Definition syncTabsAndPanels (g : SlTabGroup) : SlTabGroup :=
  let g1 := set_tabs (getAllTabs false g) g in
  let g2 := set_panels (getAllPanels g1) g1 in
  syncIndicator g2.

(** [this.tabs.map(el => (el.active = el === this.activeTab))]: the tabs of
    the cache are written one after the other. *)
Definition assign_tabs (current : ref) (l : list ref) (h : ref -> SlTab)
  : ref -> SlTab :=
  fold_left (fun h el => update h el (with_active (Nat.eqb el current) (h el)))
            l h.

(** [this.panels.map(el => (el.active = el.name === this.activeTab?.panel))] *)
Definition assign_panels (key : string) (l : list ref)
           (h : ref -> SlTabPanel) : ref -> SlTabPanel :=
  fold_left
    (fun h el => update h el (with_panelActive (String.eqb (name (h el)) key)
                                                (h el)))
    l h.

(** The guard of [setActiveTab]: [tab !== this.activeTab && !tab.disabled]. *)
Definition changes_active_tab (tab : ref) (g : SlTabGroup) : bool :=
  negb (match activeTab g with
        | Some a => Nat.eqb tab a
        | None => false
        end)
  && negb (disabled (tabHeap g tab)).

(** The options of [setActiveTab] after
    [{ emitEvents: true, scrollBehavior: 'auto', ...options }]. *)
Definition merged_emitEvents (options : option Options) : option bool :=
  match options with
  | None => Some true
  | Some o => spread true (emitEvents o)
  end.

Definition merged_scrollBehavior (options : option Options)
  : option ScrollBehavior :=
  match options with
  | None => Some behavior_auto
  | Some o => spread behavior_auto (scrollBehavior o)
  end.

(** [if (options.emitEvents)] *)
Definition truthy (b : option bool) : bool :=
  match b with
  | Some true => true
  | _ => false
  end.

(** [setActiveTab(tab, options)].  The argument is a JavaScript value: the
    call in [connectedCallback] passes [this.tabs[0]], which is [undefined]
    ([None]) for a group without tabs. *)
Definition setActiveTab (tab : option ref) (options : option Options)
           (g : SlTabGroup) : Result (SlTabGroup * list Effect) :=
  match tab with
  | None =>
      match activeTab g with
      | None => Ok (g, [])                (* undefined !== undefined is false *)
      | Some _ => Throw TypeError         (* undefined.disabled *)
      end
  | Some tab =>
      if changes_active_tab tab g then
        let previousTab := activeTab g in
        let g := set_activeTab (Some tab) g in
        (* Sync active tab and panel *)
        let g := set_tabHeap (assign_tabs tab (tabs g) (tabHeap g)) g in
        let g := set_panelHeap
                   (assign_panels (panel (tabHeap g tab)) (panels g)
                                  (panelHeap g)) g in
        let g := syncIndicator g in
        let scrolled :=
          if horizontal (placement g)
          then [scrollIntoView tab (merged_scrollBehavior options)] else [] in
        (* Emit events *)
        let emitted :=
          if truthy (merged_emitEvents options) then
            match previousTab with
            | Some previous =>
                [emit "sl-tab-hide" (panel (tabHeap g previous))]
            | None => []
            end
            ++ [emit "sl-tab-show" (panel (tabHeap g tab))]
          else [] in
        Ok (g, scrolled ++ emitted)
      else Ok (g, [])
  end.

(** [{ scrollBehavior: 'smooth' }] *)
Definition smooth : option Options :=
  Some (mkOptions absent (given behavior_smooth)).

(** [show(panel)] *)
Definition show (panel_ : string) (g : SlTabGroup)
  : Result (SlTabGroup * list Effect) :=
  match find (fun el => String.eqb (panel (tabHeap g el)) panel_) (tabs g) with
  | Some tab => setActiveTab (Some tab) smooth g
  | None => Ok (g, [])
  end.

(** The activation made when the group first becomes visible, line 100:
    [this.setActiveTab(this.getActiveTab() ?? this.tabs[0],
    { emitEvents: false })]. *)
Definition initial_activation (g : SlTabGroup)
  : Result (SlTabGroup * list Effect) :=
  setActiveTab (match getActiveTab g with
                | Some tab => Some tab
                | None => at_index (tabs g) 0
                end)
               (Some (mkOptions (given false) absent)) g.

(** What the handlers read of a mouse or keyboard event: its key, the tab
    [event.target.closest('sl-tab')] ([None] for [null]) and whether that
    tab's [closest('sl-tab-group')] is this group. *)
Record Event : Type := mkEvent {
  key : string;
  closest_tab : option ref;
  closest_group_is_this : bool
}.

(** [handleClick(event)] *)
Definition handleClick (event : Event) (g : SlTabGroup)
  : Result (SlTabGroup * list Effect) :=
  match closest_tab event with
  | None => Ok (g, [])          (* tabGroup is undefined, which is not this *)
  | Some tab =>
      if negb (closest_group_is_this event) then Ok (g, [])
      else setActiveTab (Some tab) smooth g
  end.

(** The index computed by [handleKeyDown] from the index of the focused
    tab, lines 180 to 204. *)
Definition next_index (g : SlTabGroup) (k : string) (index : Z) : Z :=
  (let length_ := Z.of_nat (List.length (tabs g)) in
  let index :=
    if String.eqb k "Home" then 0
    else if String.eqb k "End" then length_ - 1
    else if (horizontal (placement g)
             && String.eqb k (if isRtl g then "ArrowRight" else "ArrowLeft"))
            || (vertical (placement g) && String.eqb k "ArrowUp")
    then index - 1
    else if (horizontal (placement g)
             && String.eqb k (if isRtl g then "ArrowLeft" else "ArrowRight"))
            || (vertical (placement g) && String.eqb k "ArrowDown")
    then index + 1
    else index in
  let index := if index <? 0 then length_ - 1 else index in
  let index := if index >? length_ - 1 then 0 else index in
  index)%Z.

(** [handleKeyDown(event)] *)
Definition handleKeyDown (event : Event) (g : SlTabGroup)
  : Result (SlTabGroup * list Effect) :=
  match closest_tab event with
  | None => Ok (g, [])
  | Some tab =>
      if negb (closest_group_is_this event) then Ok (g, [])
      else
        (* Activate a tab *)
        '(g, activated) <-
          (if includes ["Enter"; " "] (key event)
           then '(g, es) <- setActiveTab (Some tab) smooth g ;;
                Ok (g, es ++ [preventDefault])
           else Ok (g, [])) ;;
        (* Move focus left or right *)
        if includes ["ArrowLeft"; "ArrowRight"; "ArrowUp"; "ArrowDown";
                     "Home"; "End"] (key event)
        then
          match find (fun t => match focused g with
                               | Some f => Nat.eqb t f
                               | None => false
                               end) (tabs g) with
          | Some activeEl =>
              if is_sl_tab g activeEl then
                let index :=
                  next_index g (key event) (indexOf activeEl (tabs g)) in
                match at_index (tabs g) index with
                | None => Throw TypeError       (* undefined.focus *)
                | Some el =>
                    let g := set_focused (Some el) g in
                    '(g, shown) <-
                      (match activation g with
                       | auto => setActiveTab (Some el) smooth g
                       | manual => Ok (g, [])
                       end) ;;
                    Ok (g, activated ++ [focus el] ++ shown
                           ++ (if horizontal (placement g)
                               then [scrollIntoView el None] else [])
                           ++ [preventDefault])
                end
              else Ok (g, activated)
          | None => Ok (g, activated)
          end
        else Ok (g, activated)
  end.

(** *** The properties the group is meant to have *)

(** No two tabs of the cached list carry [active=true]. *)
Definition at_most_one_active_tab (g : SlTabGroup) : bool :=
  forallb
    (fun a =>
       forallb (fun b => implb (active (tabHeap g a) && active (tabHeap g b))
                               (Nat.eqb a b))
               (tabs g))
    (tabs g).

(** A cached panel is active exactly when its name is the panel key of
    [this.activeTab]; without an active tab no panel is active. *)
Definition panels_follow_active_tab (g : SlTabGroup) : bool :=
  forallb
    (fun p =>
       Bool.eqb (panelActive (panelHeap g p))
                (match activeTab g with
                 | Some t => String.eqb (name (panelHeap g p))
                                        (panel (tabHeap g t))
                 | None => false
                 end))
    (panels g).

Definition single_active (g : SlTabGroup) : bool :=
  at_most_one_active_tab g && panels_follow_active_tab g.

(** The same two properties over the lists of the document instead of the
    caches: the tabs of the nav slot, disabled ones included
    ([getAllTabs()]), and the panels of the default slot
    ([getAllPanels()]). *)
Definition at_most_one_active_slotted_tab (g : SlTabGroup) : bool :=
  forallb
    (fun a =>
       forallb (fun b => implb (active (tabHeap g a) && active (tabHeap g b))
                               (Nat.eqb a b))
               (getAllTabs true g))
    (getAllTabs true g).

Definition slotted_panels_follow_active_tab (g : SlTabGroup) : bool :=
  forallb
    (fun p =>
       Bool.eqb (panelActive (panelHeap g p))
                (match activeTab g with
                 | Some t => String.eqb (name (panelHeap g p))
                                        (panel (tabHeap g t))
                 | None => false
                 end))
    (getAllPanels g).

Definition single_active_slotted (g : SlTabGroup) : bool :=
  at_most_one_active_slotted_tab g && slotted_panels_follow_active_tab g.

(** The caches are what [syncTabsAndPanels] would make them now: the
    document has not changed since they were built. *)
Definition caches_current (g : SlTabGroup) : Prop :=
  tabs g = getAllTabs false g /\ panels g = getAllPanels g.

(** No disabled tab of the nav slot carries [active=true]. *)
Definition no_disabled_tab_is_active (g : SlTabGroup) : bool :=
  forallb (fun el => negb (disabled (tabHeap g el) && active (tabHeap g el)))
          (getAllTabs true g).

(** What [setActiveTab] with [tab] has done to [g] when it passes the guard,
    the indicator apart. *)
Record activated (tab : ref) (g g' : SlTabGroup) : Prop := {
  act_activeTab : activeTab g' = Some tab;
  act_tabs : tabs g' = tabs g;
  act_panels : panels g' = panels g;
  act_tabHeap : tabHeap g' = assign_tabs tab (tabs g) (tabHeap g);
  act_panelHeap :
    panelHeap g'
    = assign_panels (panel (tabHeap g tab)) (panels g) (panelHeap g);
  act_focused : focused g' = focused g;
  act_placement : placement g' = placement g
}.

(** A call of [setActiveTab] with a tab, as made by the handlers and by
    [show]. *)
Definition Call : Type := (ref * option Options)%type.

Fixpoint setActiveTab_calls (calls : list Call) (g : SlTabGroup)
  : Result (SlTabGroup * list Effect) :=
  match calls with
  | [] => Ok (g, [])
  | (tab, options) :: rest =>
      '(g, es) <- setActiveTab (Some tab) options g ;;
      '(g, es') <- setActiveTab_calls rest g ;;
      Ok (g, es ++ es')
  end.

(** Some call of the sequence passes the guard of [setActiveTab] in the state
    in which it is made. *)
Fixpoint some_call_changes (calls : list Call) (g : SlTabGroup) : bool :=
  match calls with
  | [] => false
  | (tab, options) :: rest =>
      changes_active_tab tab g
      || match setActiveTab (Some tab) options g with
         | Ok (g', _) => some_call_changes rest g'
         | Throw _ => false
         end
  end.

(** The notifications among the effects of a call, in order. *)
Definition notifications (es : list Effect) : list Effect :=
  filter (fun e => match e with emit _ _ => true | _ => false end) es.

(** The extent of a tab along the axis of the placement. *)
Definition extent (g : SlTabGroup) (el : ref) : Z :=
  if horizontal (placement g) then clientWidth (tabHeap g el)
  else clientHeight (tabHeap g el).

Definition sum_extents (g : SlTabGroup) (l : list ref) : Z :=
  fold_right (fun el acc => (extent g el + acc)%Z) 0%Z l.

(** The extent and the translation of the indicator along that axis. *)
Definition indicator_extent (g : SlTabGroup) : Length :=
  if horizontal (placement g) then width (indicator g)
  else height (indicator g).

Definition translation (g : SlTabGroup) (n : Z) : Transform :=
  if horizontal (placement g) then translateX n else translateY n.

(** What a navigation key asks for, by placement axis and text direction. *)
Inductive Move : Type := to_first | to_last | to_previous | to_next | stay.

Definition key_meaning (p : Placement) (d : Dir) (k : string) : Move :=
  if String.eqb k "Home" then to_first
  else if String.eqb k "End" then to_last
  else if horizontal p then
    match d with
    | ltr => if String.eqb k "ArrowLeft" then to_previous
             else if String.eqb k "ArrowRight" then to_next else stay
    | rtl => if String.eqb k "ArrowRight" then to_previous
             else if String.eqb k "ArrowLeft" then to_next else stay
    end
  else if String.eqb k "ArrowUp" then to_previous
  else if String.eqb k "ArrowDown" then to_next else stay.

(** The index reached from index [i] in a list of [n] tabs, wrapping around
    at both ends. *)
Definition move_index (n i : nat) (m : Move) : nat :=
  match m with
  | to_first => 0
  | to_last => n - 1
  | to_previous => if Nat.eqb i 0 then n - 1 else i - 1
  | to_next => if Nat.eqb i (n - 1) then 0 else i + 1
  | stay => i
  end.

Definition navigation_keys : list string :=
  ["ArrowLeft"; "ArrowRight"; "ArrowUp"; "ArrowDown"; "Home"; "End"].

(** *** Sample groups *)

Definition sample_tab (panel_ : string) (disabled_ active_ : bool) (w h : Z)
  : SlTab :=
  mkTab "SL-TAB" panel_ disabled_ active_ w h.

Definition sample_panel (name_ : string) (active_ : bool) : SlTabPanel :=
  mkPanel "SL-TAB-PANEL" name_ active_.

Definition initial_style : Style :=
  mkStyle display_initial length_initial length_initial transform_initial.

(** A freshly connected group around the given document: empty caches, no
    active tab. *)
Definition connected (tab_heap : ref -> SlTab) (panel_heap : ref -> SlTabPanel)
           (nav body : list ref) (d : Dir) (p : Placement) : SlTabGroup :=
  mkGroup tab_heap panel_heap nav body None d None [] [] p auto initial_style.

(** Two tabs marked [active] in the markup and a disabled third one, after
    the first [syncTabsAndPanels]. *)
Definition marked_twice : SlTabGroup :=
  syncTabsAndPanels
    (connected
       (fun r => match r with
                 | 0 => sample_tab "a" false true 40 20
                 | 1 => sample_tab "b" false true 50 20
                 | _ => sample_tab "c" true false 60 20
                 end)
       (fun r => match r with
                 | 0 => sample_panel "a" true
                 | 1 => sample_panel "b" false
                 | _ => sample_panel "c" false
                 end)
       [0; 1; 2] [0; 1; 2] ltr top).

(** Three tabs, none active, the second disabled. *)
Definition three_tabs (d : Dir) (p : Placement) : SlTabGroup :=
  syncTabsAndPanels
    (connected
       (fun r => match r with
                 | 0 => sample_tab "a" false false 40 20
                 | 1 => sample_tab "b" true false 50 25
                 | _ => sample_tab "c" false false 60 30
                 end)
       (fun r => match r with
                 | 0 => sample_panel "a" false
                 | 1 => sample_panel "b" false
                 | _ => sample_panel "c" false
                 end)
       [0; 1; 2] [0; 1; 2] d p).

(** The same group after [setActiveTab] with its third tab. *)
Definition third_shown (d : Dir) (p : Placement) : SlTabGroup :=
  match setActiveTab (Some 2) None (three_tabs d p) with
  | Ok (g, _) => g
  | Throw _ => three_tabs d p
  end.

Definition with_disabled (b : bool) (t : SlTab) : SlTab :=
  mkTab (tagName t) (panel t) b (active t) (clientWidth t) (clientHeight t).

(** Three tabs, none active and none disabled. *)
Definition three_enabled : SlTabGroup :=
  syncTabsAndPanels
    (connected
       (fun r => match r with
                 | 0 => sample_tab "a" false false 40 20
                 | 1 => sample_tab "b" false false 50 25
                 | _ => sample_tab "c" false false 60 30
                 end)
       (fun r => match r with
                 | 0 => sample_panel "a" false
                 | 1 => sample_panel "b" false
                 | _ => sample_panel "c" false
                 end)
       [0; 1; 2] [0; 1; 2] ltr top).

(** The same group after [setActiveTab] with its first tab. *)
Definition first_shown : SlTabGroup :=
  match setActiveTab (Some 0) None three_enabled with
  | Ok (g, _) => g
  | Throw _ => three_enabled
  end.

(** Then the first tab, which is active, is disabled, and the mutation
    observer, seeing the [disabled] attribute change, calls
    [syncTabsAndPanels]. *)
Definition first_disabled : SlTabGroup :=
  syncTabsAndPanels
    (set_tabHeap (update (tabHeap first_shown) 0
                         (with_disabled true (tabHeap first_shown 0)))
                 first_shown).

(** A group of two tabs to whose nav slot the page has added a third tab,
    marked active, since the caches were built. *)
Definition third_added : SlTabGroup :=
  let g :=
    syncTabsAndPanels
      (connected
         (fun r => match r with
                   | 0 => sample_tab "a" false false 40 20
                   | 1 => sample_tab "b" false false 50 25
                   | _ => sample_tab "c" false true 60 30
                   end)
         (fun r => match r with
                   | 0 => sample_panel "a" false
                   | 1 => sample_panel "b" false
                   | _ => sample_panel "c" false
                   end)
         [0; 1] [0; 1] ltr top) in
  mkGroup (tabHeap g) (panelHeap g) [0; 1; 2] [0; 1; 2] (focused g) (dir g)
          (activeTab g) (tabs g) (panels g) (placement g) (activation g)
          (indicator g).

(** [third_shown] after the page has cleared the [active] flag of the third
    tab; nothing tells the group. *)
Definition third_unmarked (d : Dir) (p : Placement) : SlTabGroup :=
  let g := third_shown d p in
  set_tabHeap (update (tabHeap g) 2 (with_active false (tabHeap g 2))) g.

End TabGroup.

(** ** sl-tooltip *)

Module Tooltip.

Inductive Notification : Type := sl_show | sl_after_show | sl_hide | sl_after_hide.

(** The elements the tooltip stops or starts animations on: [this.body] and
    [this.popup.popup]. *)
Inductive Element : Type := body | popup_popup.

(** The keys given to [getAnimation]. *)
Inductive AnimationName : Type := tooltip_show | tooltip_hide.

Record Animation : Type := mkAnimation {
  animation_id : nat;
  target : Element;
  animation_name : AnimationName
}.

(** What happens, in order of occurrence. *)
Inductive Effect : Type :=
| emitted (n : Notification)
| started (a : Animation)
| cancelled (a : Animation)
| finished (a : Animation).

(** The [await]s of [handleOpenChange] at which a call can be suspended. *)
Inductive Await : Type :=
| show_stopAnimations             (* line 226 *)
| show_animateTo (id : nat)       (* line 230 *)
| hide_stopAnimations             (* line 237 *)
| hide_animateTo (id : nat).      (* line 239 *)

(** The watched properties whose handlers are modelled. *)
Inductive Watcher : Type := open_watcher | disabled_watcher.

(** A rendered tooltip and what is pending around it. *)
Record SlTooltip : Type := mkTooltip {
  open : bool;
  disabled : bool;
  body_hidden : bool;                      (* this.body.hidden *)
  popup_active : bool;                     (* this.popup.active *)
  animations : list Animation;             (* in flight *)
  next_animation : nat;
  listeners : list (nat * Notification);   (* deferreds of waitForEvent *)
  settled : list nat;                      (* deferreds that resolved *)
  next_deferred : nat;
  changed : list Watcher;                  (* handlers due, oldest first *)
  suspended : list Await;                  (* calls of handleOpenChange *)
  history : list Effect
}.

Definition set_open (v : bool) (t : SlTooltip) : SlTooltip :=
  mkTooltip v (disabled t) (body_hidden t) (popup_active t) (animations t)
            (next_animation t) (listeners t) (settled t) (next_deferred t)
            (changed t) (suspended t) (history t).

Definition set_disabled (v : bool) (t : SlTooltip) : SlTooltip :=
  mkTooltip (open t) v (body_hidden t) (popup_active t) (animations t)
            (next_animation t) (listeners t) (settled t) (next_deferred t)
            (changed t) (suspended t) (history t).

Definition set_body_hidden (v : bool) (t : SlTooltip) : SlTooltip :=
  mkTooltip (open t) (disabled t) v (popup_active t) (animations t)
            (next_animation t) (listeners t) (settled t) (next_deferred t)
            (changed t) (suspended t) (history t).

Definition set_popup_active (v : bool) (t : SlTooltip) : SlTooltip :=
  mkTooltip (open t) (disabled t) (body_hidden t) v (animations t)
            (next_animation t) (listeners t) (settled t) (next_deferred t)
            (changed t) (suspended t) (history t).

Definition set_animations (l : list Animation) (n : nat) (t : SlTooltip)
  : SlTooltip :=
  mkTooltip (open t) (disabled t) (body_hidden t) (popup_active t) l n
            (listeners t) (settled t) (next_deferred t) (changed t)
            (suspended t) (history t).

Definition set_deferreds (l : list (nat * Notification)) (r : list nat)
           (n : nat) (t : SlTooltip) : SlTooltip :=
  mkTooltip (open t) (disabled t) (body_hidden t) (popup_active t)
            (animations t) (next_animation t) l r n (changed t) (suspended t)
            (history t).

Definition set_changed (l : list Watcher) (t : SlTooltip) : SlTooltip :=
  mkTooltip (open t) (disabled t) (body_hidden t) (popup_active t)
            (animations t) (next_animation t) (listeners t) (settled t)
            (next_deferred t) l (suspended t) (history t).

Definition set_suspended (l : list Await) (t : SlTooltip) : SlTooltip :=
  mkTooltip (open t) (disabled t) (body_hidden t) (popup_active t)
            (animations t) (next_animation t) (listeners t) (settled t)
            (next_deferred t) (changed t) l (history t).

Definition record (es : list Effect) (t : SlTooltip) : SlTooltip :=
  mkTooltip (open t) (disabled t) (body_hidden t) (popup_active t)
            (animations t) (next_animation t) (listeners t) (settled t)
            (next_deferred t) (changed t) (suspended t) (history t ++ es).

Definition notification_eqb (a b : Notification) : bool :=
  match a, b with
  | sl_show, sl_show | sl_after_show, sl_after_show
  | sl_hide, sl_hide | sl_after_hide, sl_after_hide => true
  | _, _ => false
  end.

Definition element_eqb (a b : Element) : bool :=
  match a, b with
  | body, body | popup_popup, popup_popup => true
  | _, _ => false
  end.

(** *** The collaborators *)

(** Modelled from the spec: [waitForEvent] of internal/event.ts, which is not
    among the sources; it returns a deferred that resolves when the
    notification fires. *)
Definition waitForEvent (n : Notification) (t : SlTooltip) : nat * SlTooltip :=
  (next_deferred t,
   set_deferreds (listeners t ++ [(next_deferred t, n)]) (settled t)
                 (S (next_deferred t)) t).

(** Modelled from the spec: [this.emit] of internal/shoelace-element.ts, which
    is not among the sources; the notification fires and the deferreds waiting
    for it resolve. *)
Definition emit (n : Notification) (t : SlTooltip) : SlTooltip :=
  let waiting := fun l : nat * Notification => notification_eqb (snd l) n in
  record [emitted n]
         (set_deferreds (filter (fun l => negb (waiting l)) (listeners t))
                        (settled t ++ map fst (filter waiting (listeners t)))
                        (next_deferred t) t).

(** Modelled from the spec: the [watch] decorator of internal/watch.ts, which
    is not among the sources; the handler is triggered whenever the property
    transitions, after first render.  A write that changes the property
    makes its handler due. *)
Definition write_open (v : bool) (t : SlTooltip) : SlTooltip :=
  if Bool.eqb v (open t) then t
  else set_changed (changed t ++ [open_watcher]) (set_open v t).

Definition write_disabled (v : bool) (t : SlTooltip) : SlTooltip :=
  if Bool.eqb v (disabled t) then t
  else set_changed (changed t ++ [disabled_watcher]) (set_disabled v t).

(** Modelled from the spec: [stopAnimations(target)] of internal/animate.ts,
    which is not among the sources; any in-flight animation on the target is
    halted. *)
Definition stopAnimations (el : Element) (t : SlTooltip) : SlTooltip :=
  let on_target := fun a => element_eqb (target a) el in
  record (map cancelled (filter on_target (animations t)))
         (set_animations (filter (fun a => negb (on_target a)) (animations t))
                         (next_animation t) t).

(** Modelled from the spec: [animateTo(target, keyframes, options)] of
    internal/animate.ts, which is not among the sources; it starts an
    animation on the target and its deferred completes at animation end.  The
    keyframes are named by the key they were registered under. *)
Definition animateTo (el : Element) (n : AnimationName) (t : SlTooltip)
  : nat * SlTooltip :=
  let a := mkAnimation (next_animation t) el n in
  (next_animation t,
   record [started a]
          (set_animations (animations t ++ [a]) (S (next_animation t)) t)).

(** *** Methods *)

(** [show()]: the result is [undefined] ([None]) or the deferred. *)
Definition show (t : SlTooltip) : option nat * SlTooltip :=
  if open t then (None, t)
  else
    let t := write_open true t in
    let '(d, t) := waitForEvent sl_after_show t in
    (Some d, t).

(** [hide()] *)
Definition hide (t : SlTooltip) : option nat * SlTooltip :=
  if negb (open t) then (None, t)
  else
    let t := write_open false t in
    let '(d, t) := waitForEvent sl_after_hide t in
    (Some d, t).

Definition suspend (k : Await) (t : SlTooltip) : SlTooltip :=
  set_suspended (suspended t ++ [k]) t.

(** [handleOpenChange()], from its call to its first [await] or [return]. *)
Definition handleOpenChange (t : SlTooltip) : SlTooltip :=
  if open t then
    if disabled t then t
    else
      (* Show *)
      let t := emit sl_show t in
      let t := stopAnimations body t in
      suspend show_stopAnimations t
  else
    (* Hide *)
    let t := emit sl_hide t in
    let t := stopAnimations body t in
    suspend hide_stopAnimations t.

(** [handleOpenChange()], from the [await] it was suspended at to the next
    [await] or to its end. *)
Definition continue (k : Await) (t : SlTooltip) : SlTooltip :=
  match k with
  | show_stopAnimations =>
      let t := set_body_hidden false t in
      let t := set_popup_active true t in
      let '(id, t) := animateTo popup_popup tooltip_show t in
      suspend (show_animateTo id) t
  | show_animateTo _ => emit sl_after_show t
  | hide_stopAnimations =>
      let '(id, t) := animateTo popup_popup tooltip_hide t in
      suspend (hide_animateTo id) t
  | hide_animateTo _ =>
      let t := set_popup_active false t in
      let t := set_body_hidden true t in
      emit sl_after_hide t
  end.

(** [handleDisabledChange()] *)
Definition handleDisabledChange (t : SlTooltip) : SlTooltip :=
  if disabled t && open t then snd (hide t) else t.

(** *** The event loop *)

(** What can happen next without a further call from outside: a due handler
    is called, a suspended call whose deferred completed goes on, an
    animation in flight ends. *)
Inductive Action : Type :=
| run_watcher
| resume (i : nat)
| finish (id : nat).

Definition in_flight (id : nat) (t : SlTooltip) : bool :=
  existsb (fun a => Nat.eqb (animation_id a) id) (animations t).

(** The deferred awaited at [k] has completed. *)
Definition completed (k : Await) (t : SlTooltip) : bool :=
  match k with
  | show_stopAnimations | hide_stopAnimations => true
  | show_animateTo id | hide_animateTo id => negb (in_flight id t)
  end.

Fixpoint remove_nth {A : Type} (i : nat) (l : list A) : list A :=
  match l, i with
  | [], _ => []
  | _ :: r, 0 => r
  | x :: r, S i => x :: remove_nth i r
  end.

(** Modelled from the spec: when the handlers are called, which the spec
    leaves to the base element ("triggered whenever the property
    transitions").  [run_watcher] calls the handler of the oldest write not
    yet handled, one call for every write.  The program does so as long as a
    single write waits for the element to update; what it does with several
    is [performUpdate] below.  The other two actions follow the [await]s of
    [handleOpenChange]. *)
Definition step (a : Action) (t : SlTooltip) : option SlTooltip :=
  match a with
  | run_watcher =>
      match changed t with
      | [] => None
      | open_watcher :: due => Some (handleOpenChange (set_changed due t))
      | disabled_watcher :: due =>
          Some (handleDisabledChange (set_changed due t))
      end
  | resume i =>
      match nth_error (suspended t) i with
      | Some k =>
          if completed k t
          then Some (continue k (set_suspended (remove_nth i (suspended t)) t))
          else None
      | None => None
      end
  | finish id =>
      if in_flight id t then
        let ended := fun a => Nat.eqb (animation_id a) id in
        Some (record (map finished (filter ended (animations t)))
                     (set_animations
                        (filter (fun a => negb (ended a)) (animations t))
                        (next_animation t) t))
      else None
  end.

Fixpoint run (schedule : list Action) (t : SlTooltip) : option SlTooltip :=
  match schedule with
  | [] => Some t
  | a :: rest =>
      match step a t with
      | Some t' => run rest t'
      | None => None
      end
  end.

(** Nothing is due and no call is suspended. *)
Definition quiescent (t : SlTooltip) : bool :=
  match changed t, suspended t with
  | [], [] => true
  | _, _ => false
  end.

(** The action a round-robin loop takes next, if any is left. *)
Definition next_action (t : SlTooltip) : option Action :=
  match changed t, suspended t with
  | _ :: _, _ => Some run_watcher
  | [], k :: _ =>
      if completed k t then Some (resume 0)
      else match k with
           | show_animateTo id | hide_animateTo id => Some (finish id)
           | _ => Some (resume 0)
           end
  | [], [] => None
  end.

Fixpoint drain (fuel : nat) (t : SlTooltip) : list Action * SlTooltip :=
  match fuel with
  | 0 => ([], t)
  | S fuel =>
      match next_action t with
      | Some a =>
          match step a t with
          | Some t' => let '(s, t'') := drain fuel t' in (a :: s, t'')
          | None => ([], t)
          end
      | None => ([], t)
      end
  end.

(** *** The update of the element *)

Definition watcher_eqb (a b : Watcher) : bool :=
  match a, b with
  | open_watcher, open_watcher | disabled_watcher, disabled_watcher => true
  | _, _ => false
  end.

(** The property of [w] differs from its value at the last update: of the
    two values of a boolean property, it was written an odd number of
    times. *)
Definition differs (w : Watcher) (t : SlTooltip) : bool :=
  Nat.odd (List.length (filter (watcher_eqb w) (changed t))).

Definition handled (w : Watcher) (t : SlTooltip) : SlTooltip :=
  set_changed (filter (fun x => negb (watcher_eqb w x)) (changed t)) t.

(** Modelled from the spec: the update of the base element and the [watch]
    decorator of internal/watch.ts, which are not among the sources.  The
    writes made before the element updates are handled together, by one
    update.  It calls the handler of [disabled] and then the handler of
    [open] (the decorator applied last, on [handleDisabledChange], wraps the
    others), each once at most and only if the property differs from its
    value before the writes.  A write that a handler makes during the update,
    as [hide()] does in [handleDisabledChange], counts with the others. *)
Definition performUpdate (t : SlTooltip) : SlTooltip :=
  let t :=
    if differs disabled_watcher t
    then handleDisabledChange (handled disabled_watcher t)
    else handled disabled_watcher t in
  if differs open_watcher t
  then handleOpenChange (handled open_watcher t)
  else handled open_watcher t.

(** The event loop of the program: as [step], with the update of the element
    in the place of the single handler. *)
Definition step_batched (a : Action) (t : SlTooltip) : option SlTooltip :=
  match a with
  | run_watcher =>
      match changed t with
      | [] => None
      | _ :: _ => Some (performUpdate t)
      end
  | resume _ | finish _ => step a t
  end.

Fixpoint run_batched (schedule : list Action) (t : SlTooltip)
  : option SlTooltip :=
  match schedule with
  | [] => Some t
  | a :: rest =>
      match step_batched a t with
      | Some t' => run_batched rest t'
      | None => None
      end
  end.

(** *** Accounting *)

Definition count_emitted (n : Notification) (h : list Effect) : nat :=
  List.length
    (filter (fun e => match e with
                      | emitted m => notification_eqb m n
                      | _ => false
                      end) h).

(** Suspended calls that will fire [sl-after-show], [sl-after-hide]. *)
Definition shows_pending (l : list Await) : nat :=
  List.length (filter (fun k => match k with
                                | show_stopAnimations | show_animateTo _ => true
                                | _ => false
                                end) l).

Definition hides_pending (l : list Await) : nat :=
  List.length (filter (fun k => match k with
                                | hide_stopAnimations | hide_animateTo _ => true
                                | _ => false
                                end) l).

(** The calls of [handleOpenChange] that are due and will take the show
    path, and those that will take the hide path, for the current values of
    [open] and [disabled]. *)
Fixpoint shows_due (o d : bool) (l : list Watcher) : nat :=
  match l with
  | [] => 0
  | open_watcher :: r => (if o && negb d then 1 else 0) + shows_due o d r
  | disabled_watcher :: r => shows_due (if d && o then false else o) d r
  end.

Fixpoint hides_due (o d : bool) (l : list Watcher) : nat :=
  match l with
  | [] => 0
  | open_watcher :: r => (if o then 0 else 1) + hides_due o d r
  | disabled_watcher :: r =>
      if d && o then 1 + hides_due false d r else hides_due o d r
  end.

(** The value of [open] once the due handlers have run. *)
Fixpoint open_after (o d : bool) (l : list Watcher) : bool :=
  match l with
  | [] => o
  | open_watcher :: r => open_after o d r
  | disabled_watcher :: r => open_after (if d && o then false else o) d r
  end.

(** The work left, which every action decreases. *)
Definition work (t : SlTooltip) : nat :=
  list_sum (map (fun w => match w with
                          | open_watcher => 4
                          | disabled_watcher => 5
                          end) (changed t))
  + list_sum (map (fun k => match k with
                            | show_stopAnimations | hide_stopAnimations => 3
                            | show_animateTo _ | hide_animateTo _ => 1
                            end) (suspended t))
  + List.length (animations t).

(** The deferreds handed out so far are below the next one. *)
Definition fresh (ls : list (nat * Notification)) (st : list nat) (nd : nat)
  : Prop :=
  (forall d n, In (d, n) ls -> d < nd) /\ (forall d, In d st -> d < nd).

Definition deferreds_fresh (t : SlTooltip) : Prop :=
  fresh (listeners t) (settled t) (next_deferred t).

(** *** Sample tooltips *)

(** A rendered tooltip at rest: closed, enabled, nothing pending. *)
Definition resting : SlTooltip :=
  mkTooltip false false true false [] 0 [] [] 0 [] [] [].

Definition and_then {A B : Type} (o : option A) (k : A -> option B)
  : option B :=
  match o with
  | Some a => k a
  | None => None
  end.

(** [show()], the handler runs up to the start of the show animation, then
    [hide()] while that animation is in flight, and the handler runs up to
    the start of the hide animation. *)
Definition hide_during_show : option SlTooltip :=
  and_then (run [run_watcher; resume 0] (snd (show resting)))
           (fun t => run [run_watcher; resume 1] (snd (hide t))).

(** The same tooltip, disabled, after [show()] has been called twice. *)
Definition resting_disabled : SlTooltip := set_disabled true resting.

Definition shown_twice_while_disabled : SlTooltip :=
  snd (show (snd (show resting_disabled))).

(** An open tooltip at rest: [show()] on [resting], run to the end. *)
Definition resting_open : SlTooltip :=
  snd (drain 10 (snd (show resting))).

(** [show()] on [resting] and, before the element has updated,
    [disabled = true]. *)
Definition disabled_before_update : SlTooltip :=
  write_disabled true (snd (show resting)).

(** A disabled tooltip on which [show()] was called, at rest: [open] is true
    and nothing is shown. *)
Definition open_while_disabled : SlTooltip :=
  snd (drain 10 (snd (show resting_disabled))).

(** Since the count [c0] was taken, deferred [d] either still waits for [n],
    which has not fired, or has resolved, and [n] has fired.  The arguments
    are the listeners, the settled deferreds, the next deferred and the
    number of times [n] has fired. *)
Definition tracked (d : nat) (n : Notification) (c0 : nat)
           (ls : list (nat * Notification)) (st : list nat) (nd c : nat)
  : Prop :=
  (In (d, n) ls /\ ~ In d st /\ d < nd
   /\ (forall m, In (d, m) ls -> m = n) /\ c = c0)
  \/ (In d st /\ c > c0).

Definition tracks (d : nat) (n : Notification) (c0 : nat) (t : SlTooltip)
  : Prop :=
  tracked d n c0 (listeners t) (settled t) (next_deferred t)
          (count_emitted n (history t)).

(** The [sl-after-show] and [sl-after-hide] notifications fired and still to
    fire without a further call from outside. *)
Definition shown_total (t : SlTooltip) : nat :=
  count_emitted sl_after_show (history t)
  + shows_pending (suspended t)
  + shows_due (open t) (disabled t) (changed t).

Definition hidden_total (t : SlTooltip) : nat :=
  count_emitted sl_after_hide (history t)
  + hides_pending (suspended t)
  + hides_due (open t) (disabled t) (changed t).

(** From [t1] on, deferred [d] is resolved exactly when [n] has fired since
    [t0]. *)
Definition resolves_on (d : nat) (n : Notification) (t0 t1 : SlTooltip)
  : Prop :=
  forall schedule t',
    run schedule t1 = Some t' ->
    (In d (settled t')
     <-> count_emitted n (history t') > count_emitted n (history t0)).

(** Left to itself from [t1], the tooltip comes to rest, and whenever it has
    come to rest [n] has fired exactly [k] times since [t0]. *)
Definition fires_exactly (n : Notification) (k : nat) (t0 t1 : SlTooltip)
  : Prop :=
  (exists schedule t', run schedule t1 = Some t' /\ quiescent t' = true)
  /\ (forall schedule t',
         run schedule t1 = Some t' -> quiescent t' = true ->
         count_emitted n (history t') = count_emitted n (history t0) + k).

End Tooltip.

(** ** sl-tab-group: labels, mutations and the indicator's transition *)

Module TabGroupRest.
Import TabGroup.

(** The attributes [setAriaLabels] reads and writes; [None] is an attribute
    that is not set, for which [getAttribute] gives [null]. *)
Record Attributes : Type := mkAttributes {
  tab_id : ref -> option string;
  panel_id : ref -> option string;
  aria_controls : ref -> option string;      (* of the tabs *)
  aria_labelledby : ref -> option string     (* of the panels *)
}.

(** The value [setAttribute] stores for what [getAttribute] returned. *)
Definition stringified (v : option string) : string :=
  match v with
  | Some s => s
  | None => "null"
  end.

(** What the mutation observer's callback reads of a mutation record;
    [attributeName] is [null] ([None]) for a change of the child list. *)
Record MutationRecord : Type := mkMutation { attributeName : option string }.

(** The two [setAttribute] calls made for a tab and its panel. *)
Definition link (tab panel_ : ref) (a : Attributes) : Attributes :=
  let a := mkAttributes (tab_id a) (panel_id a)
                        (update (aria_controls a) tab
                                (Some (stringified (panel_id a panel_))))
                        (aria_labelledby a) in
  mkAttributes (tab_id a) (panel_id a) (aria_controls a)
               (update (aria_labelledby a) panel_
                       (Some (stringified (tab_id a tab)))).

(** The panel [setAriaLabels] finds for a tab:
    [this.panels.find(el => el.name === tab.panel)]. *)
Definition panel_of (g : SlTabGroup) (tab : ref) : option ref :=
  find (fun el => String.eqb (name (panelHeap g el)) (panel (tabHeap g tab)))
       (panels g).

(** What [setAriaLabels] does to the attributes for one tab. *)
Definition relabel (g : SlTabGroup) (a : Attributes) (tab : ref)
  : Attributes :=
  match panel_of g tab with
  | Some panel_ => link tab panel_ a
  | None => a
  end.

(** [setAriaLabels()], with the attribute mutations it causes, in order. *)
Definition setAriaLabels (g : SlTabGroup) (a : Attributes)
  : Attributes * list MutationRecord :=
  fold_left
    (fun acc tab =>
       match panel_of g tab with
       | Some panel_ =>
           (link tab panel_ (fst acc),
            snd acc ++ [mkMutation (Some "aria-controls");
                        mkMutation (Some "aria-labelledby")])
       | None => acc
       end)
    (tabs g) (a, []).

(** The callback of the mutation observer, lines 79 to 89: the group after
    it, and whether [setAriaLabels] was handed to [setTimeout]. *)
Definition mutation_callback (mutations : list MutationRecord)
           (g : SlTabGroup) : SlTabGroup * bool :=
  let labels :=
    existsb (fun m =>
               negb (match attributeName m with
                     | Some n => includes ["aria-labelledby"; "aria-controls"] n
                     | None => false
                     end))
            mutations in
  let g :=
    if existsb (fun m => match attributeName m with
                         | Some n => String.eqb n "disabled"
                         | None => false
                         end)
               mutations
    then syncTabsAndPanels g else g in
  (g, labels).

(** [indicator.style.transition] and the values that the callbacks handed to
    [requestAnimationFrame] will write back, oldest first. *)
Record Transition : Type := mkTransition {
  transition : string;
  frame_callbacks : list string
}.

(** [preventIndicatorTransition()] *)
Definition preventIndicatorTransition (s : Transition) : Transition :=
  let transitionValue := transition s in
  mkTransition "none" (frame_callbacks s ++ [transitionValue]).

(** The next animation frame: the callbacks run in the order they were
    requested. *)
Definition animation_frame (s : Transition) : Transition :=
  mkTransition (fold_left (fun _ v => v) (frame_callbacks s) (transition s)) [].

(** [n] resize notifications before the next frame. *)
Fixpoint resized (n : nat) (s : Transition) : Transition :=
  match n with
  | 0 => s
  | S n => preventIndicatorTransition (resized n s)
  end.

(** [nav.scrollLeft], [nav.scrollWidth] and [nav.clientWidth]. *)
Record Nav : Type := mkNav {
  scrollLeft : Z;
  scrollWidth : Z;
  navClientWidth : Z
}.

(** [updateScrollControls()]: the new value of [hasScrollControls]. *)
Definition updateScrollControls (noScrollControls : bool) (p : Placement)
           (nav : Nav) : bool :=
  if noScrollControls then false
  else horizontal p && (scrollWidth nav >? navClientWidth nav)%Z.

(** [handleScrollToStart()], [handleScrollToEnd()]: the [left] they pass to
    [nav.scroll]. *)
Definition handleScrollToStart (d : Dir) (nav : Nav) : Z :=
  match d with
  | rtl => scrollLeft nav + navClientWidth nav
  | ltr => scrollLeft nav - navClientWidth nav
  end%Z.

Definition handleScrollToEnd (d : Dir) (nav : Nav) : Z :=
  match d with
  | rtl => scrollLeft nav - navClientWidth nav
  | ltr => scrollLeft nav + navClientWidth nav
  end%Z.

(** The part of a group that the options of [setActiveTab] cannot reach:
    everything but the effects. *)
Definition outcome (r : Result (SlTabGroup * list Effect))
  : Result SlTabGroup :=
  match r with
  | Ok (g, _) => Ok g
  | Throw m => Throw m
  end.

(** The group after the three assignments of [setActiveTab], lines 260 to
    264, before [syncIndicator]. *)
Definition written (tab : ref) (g : SlTabGroup) : SlTabGroup :=
  let g := set_activeTab (Some tab) g in
  let g := set_tabHeap (assign_tabs tab (tabs g) (tabHeap g)) g in
  set_panelHeap (assign_panels (panel (tabHeap g tab)) (panels g)
                               (panelHeap g)) g.

(** The tab that the activation at line 100 picks from a cached list: the
    first one marked active, else the first one. *)
Definition first_choice (g : SlTabGroup) (cached : list ref) : option ref :=
  match find (fun el => active (tabHeap g el)) cached with
  | Some tab => Some tab
  | None => hd_error cached
  end.

(** [array.slice(0, -1)] as a list: all but the last element. *)
Definition all_but_last {A : Type} (l : list A) : list A :=
  firstn (List.length l - 1) l.

(** A group whose cached active tab, the third, has been taken out of the
    nav slot since the last [syncTabsAndPanels]. *)
Definition third_removed (d : Dir) (p : Placement) : SlTabGroup :=
  mkGroup (fun r => match r with
                    | 0 => sample_tab "a" false false 40 20
                    | 1 => sample_tab "b" true false 50 25
                    | _ => sample_tab "c" false true 60 30
                    end)
          (fun r => match r with
                    | 0 => sample_panel "a" false
                    | 1 => sample_panel "b" false
                    | _ => sample_panel "c" true
                    end)
          [0; 1] [0; 1; 2] None d (Some 2) [0; 2] [0; 1; 2] p auto
          initial_style.

(** [three_tabs] with [activation="manual"] and focus on the first tab. *)
Definition three_tabs_manual (d : Dir) (p : Placement) : SlTabGroup :=
  let g := three_tabs d p in
  mkGroup (tabHeap g) (panelHeap g) (navSlot g) (bodySlot g) (Some 0) (dir g)
          (activeTab g) (tabs g) (panels g) (placement g) manual
          (indicator g).

Definition sample_attributes : Attributes :=
  mkAttributes (fun r => match r with
                         | 0 => Some "tab-a"
                         | 1 => Some "tab-b"
                         | _ => None
                         end)
               (fun r => match r with
                         | 0 => Some "panel-a"
                         | _ => None
                         end)
               (fun _ => None) (fun _ => None).

End TabGroupRest.

(** ** sl-tooltip: triggers, timers, target and first render *)

Module TooltipRest.
Import Tooltip.

(** [String.prototype.split(' ')]: the pieces between single spaces, empty
    pieces included; the empty string gives one empty piece. *)
Fixpoint split_space (s : string) : list string :=
  match s with
  | EmptyString => [""]
  | String c r =>
      if Ascii.eqb c " " then "" :: split_space r
      else match split_space r with
           | w :: ws => String c w :: ws
           | [] => [String c ""]
           end
  end.

(** [hasTrigger(triggerType)], for the value of [this.trigger]. *)
Definition hasTrigger (trigger triggerType : string) : bool :=
  let triggers := split_space trigger in
  includes triggers triggerType.

(** A pending [window.setTimeout]: its handle, what it will call and the
    delay it was given. *)
Inductive Scheduled : Type := scheduled_show | scheduled_hide.

Record Timer : Type := mkTimer {
  handle : nat;
  callback : Scheduled;
  delay : Z
}.

(** The tooltip with its [trigger] property, its [hoverTimeout] field and the
    timers of the window. *)
Record Host : Type := mkHost {
  tooltip : SlTooltip;
  trigger : string;
  hoverTimeout : option nat;        (* undefined until the first hover *)
  timers : list Timer;
  next_timer : nat
}.

Definition set_tooltip (t : SlTooltip) (h : Host) : Host :=
  mkHost t (trigger h) (hoverTimeout h) (timers h) (next_timer h).

(** [clearTimeout(handle)]: nothing happens for [undefined] or for a handle
    that is not pending. *)
Definition clearTimeout (handle_ : option nat) (pending : list Timer)
  : list Timer :=
  match handle_ with
  | Some n => filter (fun t => negb (Nat.eqb (handle t) n)) pending
  | None => pending
  end.

(** [this.hoverTimeout = window.setTimeout(callback, delay)] after
    [clearTimeout(this.hoverTimeout)]. *)
Definition reschedule (c : Scheduled) (delay_ : Z) (h : Host) : Host :=
  mkHost (tooltip h) (trigger h) (Some (next_timer h))
         (clearTimeout (hoverTimeout h) (timers h)
          ++ [mkTimer (next_timer h) c delay_])
         (S (next_timer h)).

Definition handleBlur (h : Host) : Host :=
  if hasTrigger (trigger h) "focus"
  then set_tooltip (snd (hide (tooltip h))) h else h.

Definition handleClick (h : Host) : Host :=
  if hasTrigger (trigger h) "click" then
    if open (tooltip h) then set_tooltip (snd (hide (tooltip h))) h
    else set_tooltip (snd (show (tooltip h))) h
  else h.

Definition handleFocus (h : Host) : Host :=
  if hasTrigger (trigger h) "focus"
  then set_tooltip (snd (show (tooltip h))) h else h.

(** [handleKeyDown(event)]: the host, and whether [stopPropagation] was
    called. *)
Definition handleKeyDown (key : string) (h : Host) : Host * bool :=
  if open (tooltip h) && String.eqb key "Escape"
  then (set_tooltip (snd (hide (tooltip h))) h, true)
  else (h, false).

(** [handleMouseOver()], [handleMouseOut()]; the delay is what
    [parseDuration] made of the custom property. *)
Definition handleMouseOver (delay_ : Z) (h : Host) : Host :=
  if hasTrigger (trigger h) "hover"
  then reschedule scheduled_show delay_ h else h.

Definition handleMouseOut (delay_ : Z) (h : Host) : Host :=
  if hasTrigger (trigger h) "hover"
  then reschedule scheduled_hide delay_ h else h.

(** A pending timer goes off: [() => this.show()] or [() => this.hide()]. *)
Definition timeout (handle_ : nat) (h : Host) : Host :=
  match find (fun t => Nat.eqb (handle t) handle_) (timers h) with
  | Some t =>
      let h := mkHost (tooltip h) (trigger h) (hoverTimeout h)
                      (filter (fun t => negb (Nat.eqb (handle t) handle_))
                              (timers h))
                      (next_timer h) in
      match callback t with
      | scheduled_show => set_tooltip (snd (show (tooltip h))) h
      | scheduled_hide => set_tooltip (snd (hide (tooltip h))) h
      end
  | None => h
  end.

(** What reaches the host from outside. *)
Inductive DomEvent : Type :=
| blur
| click
| focus
| keydown (key : string)
| mouseover (delay_ : Z)
| mouseout (delay_ : Z)
| timer_fires (handle_ : nat).

Definition dispatch (h : Host) (e : DomEvent) : Host :=
  match e with
  | blur => handleBlur h
  | click => handleClick h
  | focus => handleFocus h
  | keydown key => fst (handleKeyDown key h)
  | mouseover delay_ => handleMouseOver delay_ h
  | mouseout delay_ => handleMouseOut delay_ h
  | timer_fires handle_ => timeout handle_ h
  end.

Definition is_keydown (e : DomEvent) : bool :=
  match e with
  | keydown _ => true
  | _ => false
  end.

(** At most one timer is pending, and it is the one [hoverTimeout] names. *)
Definition debounced (h : Host) : Prop :=
  match timers h with
  | [] => True
  | [t] => hoverTimeout h = Some (handle t)
  | _ => False
  end.

(** What [getTarget] reads of a child element. *)
Record Child : Type := mkChild {
  childTagName : string;
  slotAttribute : option string     (* getAttribute('slot') *)
}.

Definition may_be_target (el : Child) : bool :=
  negb (String.eqb (toLowerCase (childTagName el)) "style")
  && negb (match slotAttribute el with
           | Some s => String.eqb s "content"
           | None => false
           end).

(** [getTarget()] *)
Definition getTarget (children : list Child) : Result Child :=
  match find may_be_target children with
  | Some target_ => Ok target_
  | None => Throw "Invalid tooltip target: no child element was found."
  end.

(** [firstUpdated()] *)
Definition firstUpdated (t : SlTooltip) : SlTooltip :=
  let t := set_body_hidden (negb (open t)) t in
  (* If the tooltip is visible on init, update its position *)
  if open t then set_popup_active true t else t.

(** The tooltip is at rest and looks the way [open] says. *)
Definition at_rest (t : SlTooltip) : Prop :=
  changed t = [] /\ suspended t = [] /\ animations t = []
  /\ disabled t = false
  /\ body_hidden t = negb (open t) /\ popup_active t = open t.

(** [show()] and [hide()] called from outside, each time once the tooltip
    has come to rest after the call before. *)
Inductive MethodCall : Type := call_show | call_hide.

Definition call (c : MethodCall) (t : SlTooltip) : SlTooltip :=
  match c with
  | call_show => snd (show t)
  | call_hide => snd (hide t)
  end.

Inductive used_in_turn (t0 : SlTooltip) : SlTooltip -> Prop :=
| not_yet_used : used_in_turn t0 t0
| called_and_rested (t t' : SlTooltip) (c : MethodCall)
                    (schedule : list Action) :
    used_in_turn t0 t ->
    run schedule (call c t) = Some t' ->
    quiescent t' = true ->
    used_in_turn t0 t'.

(** What one step of the event loop adds to the history only starts
    animations on [popup.popup] and only cancels animations on [body]. *)
Definition starts_on_popup_cancels_on_body (e : Effect) : Prop :=
  match e with
  | started a => target a = popup_popup
  | cancelled a => target a = body
  | _ => True
  end.

Definition manual_host : Host := mkHost resting "manual" None [] 0.
Definition default_host : Host := mkHost resting "hover focus" None [] 0.
Definition click_host : Host := mkHost resting "click" None [] 0.

End TooltipRest.

(** ** Facts about the tab group *)

Module TabGroupFacts.
Import TabGroup.

(** *** The heaps after the two [map]s of [setActiveTab] *)

Lemma assign_tabs_at (current : ref) (l : list ref) (h : ref -> SlTab) (r : ref) :
  assign_tabs current l h r
  = if existsb (Nat.eqb r) l
    then with_active (Nat.eqb r current) (h r) else h r.
Proof.
  revert h. induction l as [|x l IH]; intro h; [reflexivity|].
  change (assign_tabs current (x :: l) h)
    with (assign_tabs current l
            (update h x (with_active (Nat.eqb x current) (h x)))).
  rewrite IH. cbn [existsb]. unfold update.
  destruct (Nat.eqb r x) eqn:E.
  - apply Nat.eqb_eq in E. subst x. cbn [orb].
    destruct (existsb (Nat.eqb r) l); reflexivity.
  - cbn [orb]. reflexivity.
Qed.

Lemma assign_panels_at (k : string) (l : list ref) (h : ref -> SlTabPanel)
      (r : ref) :
  assign_panels k l h r
  = if existsb (Nat.eqb r) l
    then with_panelActive (String.eqb (name (h r)) k) (h r) else h r.
Proof.
  revert h. induction l as [|x l IH]; intro h; [reflexivity|].
  change (assign_panels k (x :: l) h)
    with (assign_panels k l
            (update h x (with_panelActive (String.eqb (name (h x)) k) (h x)))).
  rewrite IH. cbn [existsb]. unfold update.
  destruct (Nat.eqb r x) eqn:E.
  - apply Nat.eqb_eq in E. subst x. cbn [orb].
    destruct (existsb (Nat.eqb r) l); reflexivity.
  - cbn [orb]. reflexivity.
Qed.

Lemma existsb_eqb_In (r : ref) (l : list ref) :
  In r l -> existsb (Nat.eqb r) l = true.
Proof.
  intro H. apply existsb_exists. exists r. split; [assumption|].
  apply Nat.eqb_refl.
Qed.

Lemma assign_tabs_panel current l h r :
  panel (assign_tabs current l h r) = panel (h r).
Proof.
  rewrite assign_tabs_at. destruct (existsb (Nat.eqb r) l); reflexivity.
Qed.

Lemma assign_tabs_active current l h r :
  In r l -> active (assign_tabs current l h r) = Nat.eqb r current.
Proof.
  intro H. rewrite assign_tabs_at, (existsb_eqb_In _ _ H). reflexivity.
Qed.

Lemma assign_panels_name k l h r :
  name (assign_panels k l h r) = name (h r).
Proof.
  rewrite assign_panels_at. destruct (existsb (Nat.eqb r) l); reflexivity.
Qed.

Lemma assign_panels_active k l h r :
  In r l -> panelActive (assign_panels k l h r) = String.eqb (name (h r)) k.
Proof.
  intro H. rewrite assign_panels_at, (existsb_eqb_In _ _ H). reflexivity.
Qed.

(** *** The indicator is the only thing the indicator methods write *)

Lemma repositionIndicator_frame g :
  repositionIndicator g = set_indicator (indicator (repositionIndicator g)) g.
Proof.
  unfold repositionIndicator. destruct (getActiveTab g).
  - destruct (placement g); reflexivity.
  - destruct g; reflexivity.
Qed.

Lemma syncIndicator_frame g :
  syncIndicator g = set_indicator (indicator (syncIndicator g)) g.
Proof.
  unfold syncIndicator. destruct (getActiveTab g).
  - rewrite repositionIndicator_frame at 1. reflexivity.
  - reflexivity.
Qed.

(** *** What a call that passes the guard leaves behind *)

Lemma setActiveTab_changes tab options g :
  changes_active_tab tab g = true ->
  exists g',
    setActiveTab (Some tab) options g
    = Ok (g',
          (if horizontal (placement g)
           then [scrollIntoView tab (merged_scrollBehavior options)] else [])
          ++ (if truthy (merged_emitEvents options)
              then match activeTab g with
                   | Some previous => [emit "sl-tab-hide" (panel (tabHeap g previous))]
                   | None => []
                   end ++ [emit "sl-tab-show" (panel (tabHeap g tab))]
              else []))
    /\ activated tab g g'.
Proof.
  intro G. unfold setActiveTab. rewrite G.
  eexists. split.
  - rewrite syncIndicator_frame. cbn [set_indicator set_panelHeap set_tabHeap
      set_activeTab tabHeap placement tabs panels panelHeap].
    rewrite !assign_tabs_panel.
    destruct (activeTab g); [rewrite assign_tabs_panel|]; reflexivity.
  - rewrite syncIndicator_frame.
    constructor; cbn [set_indicator set_panelHeap set_tabHeap set_activeTab
      tabHeap placement tabs panels panelHeap activeTab focused];
      reflexivity.
Qed.

Lemma setActiveTab_ignores tab options g :
  changes_active_tab tab g = false ->
  setActiveTab (Some tab) options g = Ok (g, []).
Proof.
  intro G. unfold setActiveTab. rewrite G. reflexivity.
Qed.

(** *** Activation *)

(** C2. A call of [setActiveTab] with the tab that [activeTab] already refers
    to, or with a disabled tab, returns normally, leaves the whole group (tab
    flags, panel flags, [activeTab]) as it was and has no effect at all, so
    that neither sl-tab-hide nor sl-tab-show is emitted. *)
Theorem C2_setActiveTab_ignores_active_and_disabled
        (g : SlTabGroup) (tab : ref) (options : option Options) :
  activeTab g = Some tab \/ disabled (tabHeap g tab) = true ->
  setActiveTab (Some tab) options g = Ok (g, []).
Proof.
  intro H. apply setActiveTab_ignores. unfold changes_active_tab.
  destruct H as [H | H]; rewrite H.
  - rewrite Nat.eqb_refl. reflexivity.
  - apply andb_false_r.
Qed.

Lemma C2_setActiveTab_ignores_witness :
  disabled (tabHeap (three_tabs ltr top) 1) = true
  /\ setActiveTab (Some 1) None (three_tabs ltr top)
     = Ok (three_tabs ltr top, []).
Proof.
  split.
  - reflexivity.
  - apply (@C2_setActiveTab_ignores_active_and_disabled
             (three_tabs ltr top) 1 None).
    right. reflexivity.
Defined.

(** C9. A call of [setActiveTab] that changes the active tab with
    [emitEvents] enabled emits, in this order, sl-tab-hide with the panel
    name of the previously active tab and sl-tab-show with the panel name of
    the new one when there was an active tab, and sl-tab-show alone when
    there was none. *)
Theorem C9_tab_hide_precedes_tab_show
        (g : SlTabGroup) (tab : ref) (options : option Options) :
  changes_active_tab tab g = true ->
  truthy (merged_emitEvents options) = true ->
  exists g' es,
    setActiveTab (Some tab) options g = Ok (g', es)
    /\ notifications es
       = match activeTab g with
         | Some previous =>
             [emit "sl-tab-hide" (panel (tabHeap g previous));
              emit "sl-tab-show" (panel (tabHeap g tab))]
         | None => [emit "sl-tab-show" (panel (tabHeap g tab))]
         end.
Proof.
  intros G E.
  destruct (setActiveTab_changes tab options g G) as [g' [R _]].
  eexists. eexists. split; [exact R|].
  rewrite E. unfold notifications. rewrite filter_app.
  destruct (horizontal (placement g)); destruct (activeTab g); reflexivity.
Qed.

Lemma C9_tab_hide_precedes_tab_show_witness :
  exists g' es,
    setActiveTab (Some 0) None marked_twice = Ok (g', es)
    /\ notifications es = [emit "sl-tab-show" "a"].
Proof.
  apply (@C9_tab_hide_precedes_tab_show marked_twice 0 None); reflexivity.
Defined.

Lemma find_absent {A : Type} (f : A -> bool) (l : list A) :
  (forall x, In x l -> f x = false) -> find f l = None.
Proof.
  induction l as [|x l IH]; intro H; [reflexivity|].
  cbn [find]. rewrite (H x (or_introl eq_refl)).
  apply IH. intros y Hy. apply H. right. exact Hy.
Qed.

Lemma syncTabsAndPanels_tabs g :
  tabs (syncTabsAndPanels g) = getAllTabs false g.
Proof.
  unfold syncTabsAndPanels. rewrite syncIndicator_frame. reflexivity.
Qed.

Lemma syncTabsAndPanels_tabHeap g :
  tabHeap (syncTabsAndPanels g) = tabHeap g.
Proof.
  unfold syncTabsAndPanels. rewrite syncIndicator_frame. reflexivity.
Qed.



(** *** One active tab, and the panels that follow it *)

Lemma at_most_one_active_tab_iff g :
  at_most_one_active_tab g = true
  <-> (forall a b, In a (tabs g) -> In b (tabs g) ->
                   active (tabHeap g a) = true -> active (tabHeap g b) = true ->
                   a = b).
Proof.
  unfold at_most_one_active_tab. split.
  - intros H a b Ha Hb Aa Ab.
    rewrite forallb_forall in H. specialize (H a Ha).
    rewrite forallb_forall in H. specialize (H b Hb).
    rewrite Aa, Ab in H. apply Nat.eqb_eq. exact H.
  - intro H. apply forallb_forall. intros a Ha.
    apply forallb_forall. intros b Hb.
    destruct (active (tabHeap g a)) eqn:Aa;
      destruct (active (tabHeap g b)) eqn:Ab; try reflexivity.
    cbn. apply Nat.eqb_eq. apply H; assumption.
Qed.

Lemma panels_follow_active_tab_iff g :
  panels_follow_active_tab g = true
  <-> (forall p, In p (panels g) ->
                 panelActive (panelHeap g p)
                 = match activeTab g with
                   | Some t => String.eqb (name (panelHeap g p))
                                          (panel (tabHeap g t))
                   | None => false
                   end).
Proof.
  unfold panels_follow_active_tab. rewrite forallb_forall.
  split; intros H p Hp; specialize (H p Hp).
  - apply eqb_prop in H. exact H.
  - rewrite H. apply eqb_reflx.
Qed.

Lemma activated_single_active tab g g' :
  activated tab g g' -> single_active g' = true.
Proof.
  intros [Ha Ht Hp Hth Hph _ _]. unfold single_active.
  apply andb_true_intro. split.
  - apply at_most_one_active_tab_iff. intros a b Ia Ib Aa Ab.
    rewrite Ht in Ia, Ib. rewrite Hth in Aa, Ab.
    rewrite assign_tabs_active in Aa by assumption.
    rewrite assign_tabs_active in Ab by assumption.
    apply Nat.eqb_eq in Aa, Ab. congruence.
  - apply panels_follow_active_tab_iff. intros p Ip.
    rewrite Hp in Ip. rewrite Ha, Hph, Hth.
    rewrite assign_panels_active by assumption.
    rewrite assign_panels_name, assign_tabs_panel. reflexivity.
Qed.

Lemma setActiveTab_single_active tab options g g' es :
  single_active g = true \/ changes_active_tab tab g = true ->
  setActiveTab (Some tab) options g = Ok (g', es) ->
  single_active g' = true.
Proof.
  intros H R. destruct (changes_active_tab tab g) eqn:G.
  - destruct (setActiveTab_changes tab options g G) as [g1 [R1 A]].
    rewrite R1 in R. injection R as <- _.
    exact (activated_single_active A).
  - rewrite (setActiveTab_ignores tab options g G) in R. injection R as <- _.
    destruct H as [H | H]; [exact H | discriminate H].
Qed.

Lemma setActiveTab_returns tab options g :
  exists g' es, setActiveTab (Some tab) options g = Ok (g', es).
Proof.
  destruct (changes_active_tab tab g) eqn:G.
  - destruct (setActiveTab_changes tab options g G) as [g1 [R1 _]].
    eexists. eexists. exact R1.
  - eexists. eexists. exact (setActiveTab_ignores tab options g G).
Qed.

Lemma setActiveTab_calls_single_active (calls : list Call) (g : SlTabGroup) :
  single_active g = true \/ some_call_changes calls g = true ->
  exists g' es,
    setActiveTab_calls calls g = Ok (g', es) /\ single_active g' = true.
Proof.
  revert g. induction calls as [|[tab options] rest IH]; intros g H.
  - exists g, []. split; [reflexivity|].
    destruct H as [H | H]; [exact H | discriminate H].
  - destruct (setActiveTab_returns tab options g) as [g1 [es1 R1]].
    assert (S1 : single_active g1 = true
                 \/ some_call_changes rest g1 = true).
    { cbn [some_call_changes] in H. rewrite R1 in H.
      destruct H as [H | H].
      - left. apply (setActiveTab_single_active tab options g (or_introl H) R1).
      - apply orb_prop in H. destruct H as [H | H].
        + left.
          apply (setActiveTab_single_active tab options g (or_intror H) R1).
        + right. exact H. }
    destruct (IH g1 S1) as [g' [es' [R' S']]].
    exists g', (es1 ++ es'). split; [|exact S'].
    cbn [setActiveTab_calls]. rewrite R1. cbn [JS.bind]. rewrite R'.
    reflexivity.
Qed.

(** *** What [setActiveTab] leaves alone *)

Lemma assign_tabs_tagName current l h r :
  tagName (assign_tabs current l h r) = tagName (h r).
Proof.
  rewrite assign_tabs_at. destruct (existsb (Nat.eqb r) l); reflexivity.
Qed.

Lemma assign_tabs_disabled current l h r :
  disabled (assign_tabs current l h r) = disabled (h r).
Proof.
  rewrite assign_tabs_at. destruct (existsb (Nat.eqb r) l); reflexivity.
Qed.

Lemma assign_tabs_outside current l h r :
  ~ In r l -> assign_tabs current l h r = h r.
Proof.
  intro N. rewrite assign_tabs_at.
  destruct (existsb (Nat.eqb r) l) eqn:E; [|reflexivity].
  apply existsb_exists in E. destruct E as [x [Hx E]].
  apply Nat.eqb_eq in E. subst x. contradiction.
Qed.

Lemma assign_panels_tagName k l h r :
  panelTagName (assign_panels k l h r) = panelTagName (h r).
Proof.
  rewrite assign_panels_at. destruct (existsb (Nat.eqb r) l); reflexivity.
Qed.

(** A call of [setActiveTab] leaves the slots and the caches as they are,
    and of the elements it writes the [active] flag only, and only on the
    elements of the caches. *)
Lemma setActiveTab_document tab options g g' es :
  setActiveTab (Some tab) options g = Ok (g', es) ->
  navSlot g' = navSlot g /\ bodySlot g' = bodySlot g
  /\ tabs g' = tabs g /\ panels g' = panels g
  /\ (forall r, tagName (tabHeap g' r) = tagName (tabHeap g r))
  /\ (forall r, disabled (tabHeap g' r) = disabled (tabHeap g r))
  /\ (forall r, ~ In r (tabs g) ->
                active (tabHeap g' r) = active (tabHeap g r))
  /\ (forall r, panelTagName (panelHeap g' r) = panelTagName (panelHeap g r)).
Proof.
  intro R. destruct (changes_active_tab tab g) eqn:G.
  - unfold setActiveTab in R. rewrite G in R.
    rewrite syncIndicator_frame in R. injection R as <- _.
    cbn [set_indicator set_panelHeap set_tabHeap set_activeTab tabHeap
         panelHeap navSlot bodySlot tabs panels].
    repeat split; intros.
    + apply assign_tabs_tagName.
    + apply assign_tabs_disabled.
    + rewrite assign_tabs_outside by assumption. reflexivity.
    + apply assign_panels_tagName.
  - rewrite (setActiveTab_ignores tab options g G) in R. injection R as <- _.
    repeat split; reflexivity.
Qed.

Lemma getAllTabs_same includeDisabled g g' :
  navSlot g' = navSlot g ->
  (forall r, tagName (tabHeap g' r) = tagName (tabHeap g r)) ->
  (forall r, disabled (tabHeap g' r) = disabled (tabHeap g r)) ->
  getAllTabs includeDisabled g' = getAllTabs includeDisabled g.
Proof.
  intros N T D. unfold getAllTabs, is_sl_tab. rewrite N.
  apply filter_ext. intro r. rewrite T, D. reflexivity.
Qed.

Lemma getAllPanels_same g g' :
  bodySlot g' = bodySlot g ->
  (forall r, panelTagName (panelHeap g' r) = panelTagName (panelHeap g r)) ->
  getAllPanels g' = getAllPanels g.
Proof.
  intros B T. unfold getAllPanels, is_sl_tab_panel. rewrite B.
  apply filter_ext. intro r. rewrite T. reflexivity.
Qed.

Lemma cached_tab_is_enabled g r :
  In r (getAllTabs false g) -> disabled (tabHeap g r) = false.
Proof.
  unfold getAllTabs. intro H. apply filter_In in H. destruct H as [_ H].
  apply andb_prop in H. destruct H as [_ H].
  apply negb_true_iff in H. exact H.
Qed.

Lemma setActiveTab_keeps_caches tab options g g' es :
  setActiveTab (Some tab) options g = Ok (g', es) ->
  caches_current g -> no_disabled_tab_is_active g = true ->
  caches_current g' /\ no_disabled_tab_is_active g' = true.
Proof.
  intros R [Ct Cp] N.
  destruct (@setActiveTab_document tab options g g' es R)
    as [Hn [Hb [Ht [Hp [Tg [Di [Ac Pt]]]]]]].
  split.
  - split.
    + rewrite Ht, Ct. symmetry. apply getAllTabs_same; assumption.
    + rewrite Hp, Cp. symmetry. apply getAllPanels_same; assumption.
  - unfold no_disabled_tab_is_active in *.
    rewrite (@getAllTabs_same true g g' Hn Tg Di).
    rewrite forallb_forall in N. apply forallb_forall. intros el Hel.
    specialize (N el Hel). rewrite Di.
    destruct (disabled (tabHeap g el)) eqn:D; [|reflexivity].
    rewrite Ac; [exact N|].
    intro K. rewrite Ct in K. apply cached_tab_is_enabled in K. congruence.
Qed.

Lemma setActiveTab_calls_keep_caches calls :
  forall g g' es,
    setActiveTab_calls calls g = Ok (g', es) ->
    caches_current g -> no_disabled_tab_is_active g = true ->
    caches_current g' /\ no_disabled_tab_is_active g' = true.
Proof.
  induction calls as [|[tab options] rest IH]; intros g g' es R C N.
  - injection R as <- _. split; assumption.
  - cbn [setActiveTab_calls] in R.
    destruct (setActiveTab (Some tab) options g) as [[g1 es1]|m] eqn:R1;
      cbn [JS.bind] in R; [|discriminate R].
    destruct (@setActiveTab_keeps_caches tab options g g1 es1 R1 C N) as [C1 N1].
    destruct (setActiveTab_calls rest g1) as [[g2 es2]|m] eqn:R2;
      cbn [JS.bind] in R; [|discriminate R].
    injection R as <- _. exact (IH g1 g2 es2 R2 C1 N1).
Qed.

(** With the caches current and no disabled tab active, what holds of the
    caches holds of the slotted tabs and panels. *)
Lemma single_active_of_slotted g :
  caches_current g -> no_disabled_tab_is_active g = true ->
  single_active g = true -> single_active_slotted g = true.
Proof.
  intros [Ct Cp] N S. unfold single_active in S. apply andb_prop in S.
  destruct S as [St Sp]. unfold single_active_slotted.
  apply andb_true_intro. split.
  - rewrite at_most_one_active_tab_iff in St.
    unfold at_most_one_active_slotted_tab.
    unfold no_disabled_tab_is_active in N. rewrite forallb_forall in N.
    assert (K : forall el, In el (getAllTabs true g) ->
                           active (tabHeap g el) = true -> In el (tabs g)).
    { intros el Hel A. specialize (N el Hel). rewrite A, andb_true_r in N.
      apply negb_true_iff in N. rewrite Ct.
      unfold getAllTabs in *. apply filter_In in Hel.
      destruct Hel as [Hin Htag]. apply filter_In. split; [exact Hin|].
      rewrite Htag, N. reflexivity. }
    apply forallb_forall. intros a Ha. apply forallb_forall. intros b Hb.
    destruct (active (tabHeap g a)) eqn:Aa;
      destruct (active (tabHeap g b)) eqn:Ab; try reflexivity.
    cbn. apply Nat.eqb_eq. apply St; auto.
  - unfold slotted_panels_follow_active_tab. rewrite <- Cp. exact Sp.
Qed.

(** C1, as the program has it.  After a sequence of [setActiveTab] calls, each
    with any tab and any options, at most one tab of the cached list has
    [active=true] and a cached panel has [active=true] exactly when its name
    is the panel key of [activeTab] (no panel when there is no [activeTab]),
    provided the group was in that state before the calls or some call of
    the sequence changed the active tab.  The same then holds of all the
    tabs of the nav slot, disabled ones included, and of all the panels of
    the default slot, if before the calls the caches were current and no
    disabled tab was active.  Calls that the guard turns away establish
    nothing, and no call writes the flag of a tab outside the cache. *)
Theorem C1_single_active_after_calls (calls : list Call) (g : SlTabGroup) :
  single_active g = true \/ some_call_changes calls g = true ->
  exists g' es,
    setActiveTab_calls calls g = Ok (g', es)
    /\ single_active g' = true
    /\ (caches_current g -> no_disabled_tab_is_active g = true ->
        single_active_slotted g' = true).
Proof.
  intro H.
  destruct (@setActiveTab_calls_single_active calls g H) as [g' [es [R S]]].
  exists g', es. split; [exact R|]. split; [exact S|].
  intros C N.
  destruct (@setActiveTab_calls_keep_caches calls g g' es R C N) as [C' N'].
  exact (@single_active_of_slotted g' C' N' S).
Qed.

Lemma C1_single_active_after_calls_witness :
  exists g' es,
    setActiveTab_calls [(2, None); (0, smooth)] marked_twice = Ok (g', es)
    /\ single_active g' = true
    /\ single_active_slotted g' = true.
Proof.
  destruct (@C1_single_active_after_calls [(2, None); (0, smooth)]
              marked_twice (or_intror eq_refl)) as [g' [es [R [S F]]]].
  exists g', es. split; [exact R|]. split; [exact S|].
  apply F; [split; reflexivity | reflexivity].
Defined.

(** The claim fails without these provisos.  In a group whose markup marks
    two tabs active, a call with the disabled third tab is turned away by the
    guard and both flags stay, as does the active panel without an
    [activeTab].  And in a group whose active first tab was disabled, which
    drops it from the cache, a call with the third tab passes the guard and
    clears the flags of the cached tabs only: the first and the third tab of
    the nav slot are both active afterwards.  So are they in a group to
    whose nav slot a third tab, marked active, was added after the caches
    were built, when the first tab is activated. *)
Lemma C1_two_active_tabs_survive_calls :
  (setActiveTab_calls [(2, None)] marked_twice = Ok (marked_twice, [])
   /\ tabs marked_twice = [0; 1]
   /\ active (tabHeap marked_twice 0) = true
   /\ active (tabHeap marked_twice 1) = true
   /\ at_most_one_active_tab marked_twice = false
   /\ activeTab marked_twice = None
   /\ panelActive (panelHeap marked_twice 0) = true)
  /\ (caches_current first_disabled
      /\ single_active first_disabled = true
      /\ no_disabled_tab_is_active first_disabled = false
      /\ some_call_changes [(2, None)] first_disabled = true
      /\ exists g' es,
           setActiveTab_calls [(2, None)] first_disabled = Ok (g', es)
           /\ tabs g' = [1; 2]
           /\ getAllTabs true g' = [0; 1; 2]
           /\ map (fun el => active (tabHeap g' el)) (getAllTabs true g')
              = [true; false; true]
           /\ single_active g' = true
           /\ at_most_one_active_slotted_tab g' = false)
  /\ (tabs third_added = [0; 1]
      /\ getAllTabs false third_added = [0; 1; 2]
      /\ single_active third_added = true
      /\ no_disabled_tab_is_active third_added = true
      /\ some_call_changes [(0, None)] third_added = true
      /\ exists g' es,
           setActiveTab_calls [(0, None)] third_added = Ok (g', es)
           /\ map (fun el => active (tabHeap g' el)) (getAllTabs true g')
              = [true; false; true]
           /\ single_active g' = true
           /\ at_most_one_active_slotted_tab g' = false).
Proof.
  split; [|split].
  - repeat split; reflexivity.
  - split; [split; vm_compute; reflexivity|].
    split; [vm_compute; reflexivity|].
    split; [vm_compute; reflexivity|].
    split; [vm_compute; reflexivity|].
    eexists. eexists. split; [reflexivity|].
    repeat split; vm_compute; reflexivity.
  - split; [vm_compute; reflexivity|].
    split; [vm_compute; reflexivity|].
    split; [vm_compute; reflexivity|].
    split; [vm_compute; reflexivity|].
    split; [vm_compute; reflexivity|].
    eexists. eexists. split; [reflexivity|].
    repeat split; vm_compute; reflexivity.
Qed.

(** *** The indicator *)

Lemma indexOf_app_first (x : ref) (pre post : list ref) :
  ~ In x pre -> indexOf x (pre ++ x :: post) = Z.of_nat (List.length pre).
Proof.
  induction pre as [|y pre IH]; intro H.
  - cbn. rewrite Nat.eqb_refl. reflexivity.
  - cbn [app indexOf List.length].
    destruct (Nat.eqb y x) eqn:E.
    + apply Nat.eqb_eq in E. exfalso. apply H. left. exact E.
    + rewrite IH by (intro K; apply H; right; exact K).
      destruct (Z.of_nat (List.length pre) <? 0)%Z eqn:L; [lia|lia].
Qed.

Lemma slice0_prefix {A : Type} (pre post : list A) :
  slice0 (pre ++ post) (Z.of_nat (List.length pre)) = pre.
Proof.
  unfold slice0.
  destruct (Z.of_nat (List.length pre) <? 0)%Z eqn:L;
    [apply Z.ltb_lt in L; lia|].
  rewrite Nat2Z.id, firstn_app, Nat.sub_diag, firstn_all. cbn.
  apply app_nil_r.
Qed.

Lemma offset_sums (h : ref -> SlTab) (l : list ref) (o : Offset) :
  fold_left
    (fun previous current =>
       mkOffset (left previous + clientWidth (h current))
                (top_ previous + clientHeight (h current)))
    l o
  = (mkOffset
       (left o + fold_right (fun el acc => clientWidth (h el) + acc) 0 l)
       (top_ o + fold_right (fun el acc => clientHeight (h el) + acc) 0 l))%Z.
Proof.
  revert o. induction l as [|x l IH]; intro o.
  - cbn. destruct o. cbn. f_equal; lia.
  - cbn [fold_left fold_right]. rewrite IH. cbn [left top_]. f_equal; lia.
Qed.

Lemma indexOf_absent (x : ref) (l : list ref) :
  ~ In x l -> indexOf x l = (-1)%Z.
Proof.
  induction l as [|y l IH]; intro N; [reflexivity|].
  cbn [indexOf]. destruct (Nat.eqb_spec y x) as [E|E].
  - exfalso. apply N. left. exact E.
  - rewrite IH by (intro K; apply N; right; exact K). reflexivity.
Qed.

Lemma slice0_minus_one {A : Type} (l : list A) :
  slice0 l (-1) = TabGroupRest.all_but_last l.
Proof.
  unfold slice0, TabGroupRest.all_but_last. cbn [Z.ltb Z.compare].
  f_equal. lia.
Qed.

(** The indicator after [repositionIndicator], for the tabs of which it
    takes the extents. *)
Lemma repositionIndicator_offset (g : SlTabGroup) (current : ref)
      (precedingTabs : list ref) :
  getActiveTab g = Some current ->
  slice0 (getAllTabs true g) (indexOf current (getAllTabs true g))
  = precedingTabs ->
  indicator_extent (repositionIndicator g) = px (extent g current)
  /\ transform (indicator (repositionIndicator g))
     = translation g (if horizontal (placement g) && isRtl g
                      then (- sum_extents g precedingTabs)%Z
                      else sum_extents g precedingTabs).
Proof.
  intros A D.
  unfold repositionIndicator, indicator_extent, translation, extent,
    sum_extents, extent.
  rewrite A, D, offset_sums.
  cbn [left top_].
  destruct (placement g) eqn:P; cbn [horizontal set_indicator placement
    indicator width height transform andb]; rewrite ?P;
    cbn [horizontal]; split; try reflexivity;
    destruct (isRtl g); f_equal; lia.
Qed.

Lemma repositionIndicator_display (g : SlTabGroup) :
  display (indicator (repositionIndicator g)) = display (indicator g).
Proof.
  unfold repositionIndicator. destruct (getActiveTab g); [|reflexivity].
  destruct (placement g); reflexivity.
Qed.

Lemma syncIndicator_repositions (g : SlTabGroup) :
  syncIndicator g
  = set_display (match getActiveTab g with
                 | Some _ => display_block
                 | None => display_none
                 end) (repositionIndicator g).
Proof.
  unfold syncIndicator, repositionIndicator.
  change (getActiveTab (set_display display_block g)) with (getActiveTab g).
  destruct (getActiveTab g); [|reflexivity].
  change (getAllTabs true (set_display display_block g))
    with (getAllTabs true g).
  destruct g as [th ph ns bs fo di at_ ts ps pl ac ind].
  destruct pl; reflexivity.
Qed.

(** C3, as the program has it.  For a group whose active tab (the one
    [getActiveTab] finds) is one of the [sl-tab] elements assigned to the nav
    slot, [repositionIndicator] gives the indicator, along the axis of the
    placement (width for top and bottom, height for start and end), the
    measured extent of that tab, and translates it along the same axis by
    the sum of the measured extents of the [sl-tab] elements assigned to the
    nav slot before it, disabled ones included, with the opposite sign in
    right-to-left horizontal mode.  If the active tab is not among them, the
    sum is taken over all of them but the last.  [repositionIndicator] never
    changes [display], and without an active tab it changes nothing;
    [syncIndicator] does what [repositionIndicator] does and sets [display]:
    [none] without an active tab, [block] with one. *)
Theorem C3_indicator_tracks_active_tab (g : SlTabGroup) :
  (forall current before after,
      getActiveTab g = Some current ->
      is_sl_tab g current = true ->
      navSlot g = before ++ current :: after ->
      ~ In current before ->
      indicator_extent (repositionIndicator g) = px (extent g current)
      /\ transform (indicator (repositionIndicator g))
         = translation g
             (if horizontal (placement g) && isRtl g
              then (- sum_extents g (filter (is_sl_tab g) before))%Z
              else sum_extents g (filter (is_sl_tab g) before)))
  /\ (forall current,
      getActiveTab g = Some current ->
      ~ In current (filter (is_sl_tab g) (navSlot g)) ->
      indicator_extent (repositionIndicator g) = px (extent g current)
      /\ transform (indicator (repositionIndicator g))
         = translation g
             (if horizontal (placement g) && isRtl g
              then (- sum_extents g
                        (TabGroupRest.all_but_last
                           (filter (is_sl_tab g) (navSlot g))))%Z
              else sum_extents g
                     (TabGroupRest.all_but_last
                        (filter (is_sl_tab g) (navSlot g)))))
  /\ display (indicator (repositionIndicator g)) = display (indicator g)
  /\ (getActiveTab g = None -> repositionIndicator g = g)
  /\ syncIndicator g
     = set_display (match getActiveTab g with
                    | Some _ => display_block
                    | None => display_none
                    end) (repositionIndicator g).
Proof.
  split; [|split; [|split; [|split]]].
  - intros current before after A T D N.
    apply repositionIndicator_offset; [exact A|].
    unfold getAllTabs. rewrite D, filter_app. cbn [filter]. rewrite T.
    rewrite indexOf_app_first.
    + apply slice0_prefix.
    + intro K. apply filter_In in K. apply N. exact (proj1 K).
  - intros current A N.
    apply repositionIndicator_offset; [exact A|].
    change (getAllTabs true g) with (filter (is_sl_tab g) (navSlot g)).
    rewrite (@indexOf_absent current _ N).
    apply slice0_minus_one.
  - apply repositionIndicator_display.
  - intro A. unfold repositionIndicator. rewrite A. reflexivity.
  - apply syncIndicator_repositions.
Qed.

Lemma C3_indicator_tracks_active_tab_witness :
  indicator_extent (repositionIndicator (third_shown rtl top)) = px 60
  /\ transform (indicator (repositionIndicator (third_shown rtl top)))
     = translateX (-90).
Proof.
  apply (proj1 (C3_indicator_tracks_active_tab (third_shown rtl top))
               2 [0; 1] []).
  - reflexivity.
  - reflexivity.
  - reflexivity.
  - intros [H | [H | []]]; discriminate H.
Defined.

(** The claim fails on both counts.  When the page clears the [active] flag
    of the active tab and the nav is resized, [repositionIndicator] finds no
    active tab and returns: the indicator stays on display where it was.
    And when the active tab of the cache has been taken out of the nav slot,
    the indicator is translated by the extent of the first of the two tabs
    that are left. *)
Lemma C3_indicator_is_left_on_display :
  (getActiveTab (third_unmarked ltr top) = None
   /\ display (indicator (third_unmarked ltr top)) = display_block
   /\ display (indicator (repositionIndicator (third_unmarked ltr top)))
      = display_block
   /\ transform (indicator (repositionIndicator (third_unmarked ltr top)))
      = translateX 90)
  /\ (getActiveTab (TabGroupRest.third_removed ltr top) = Some 2
      /\ getAllTabs true (TabGroupRest.third_removed ltr top) = [0; 1]
      /\ clientWidth (tabHeap (TabGroupRest.third_removed ltr top) 0) = 40%Z
      /\ clientWidth (tabHeap (TabGroupRest.third_removed ltr top) 1) = 50%Z
      /\ transform
           (indicator (repositionIndicator
                         (TabGroupRest.third_removed ltr top)))
         = translateX 40).
Proof.
  split; repeat split; vm_compute; reflexivity.
Qed.

(** *** Keyboard navigation *)

Lemma indexOf_found (x : ref) (l : list ref) (i : nat) :
  indexOf x l = Z.of_nat i -> nth_error l i = Some x.
Proof.
  revert i. induction l as [|y l IH]; intros i H.
  - cbn in H. lia.
  - cbn [indexOf] in H. destruct (Nat.eqb y x) eqn:E.
    + apply Nat.eqb_eq in E. subst y.
      destruct i; [reflexivity | lia].
    + destruct (indexOf x l <? 0)%Z eqn:L; [lia|].
      destruct i as [|i]; [apply Z.ltb_ge in L; lia|].
      cbn [nth_error]. apply IH. lia.
Qed.

Lemma find_focused (f : ref) (l : list ref) :
  In f l -> find (fun t => Nat.eqb t f) l = Some f.
Proof.
  induction l as [|y l IH]; intro H; [contradiction|].
  cbn [find]. destruct (Nat.eqb y f) eqn:E.
  - apply Nat.eqb_eq in E. subst y. reflexivity.
  - destruct H as [H | H]; [|exact (IH H)].
    subst y. rewrite Nat.eqb_refl in E. discriminate E.
Qed.

Lemma next_index_meaning (g : SlTabGroup) (k : string) (i : nat) :
  In k navigation_keys ->
  i < List.length (tabs g) ->
  next_index g k (Z.of_nat i)
  = Z.of_nat (move_index (List.length (tabs g)) i
                         (key_meaning (placement g) (dir g) k)).
Proof.
  intros K I. unfold next_index, key_meaning, isRtl.
  cbn in K.
  destruct K as [K | [K | [K | [K | [K | [K | []]]]]]]; subst k;
    destruct (placement g); destruct (dir g);
    cbn [String.eqb Ascii.eqb Bool.eqb horizontal vertical andb orb
         move_index];
    repeat match goal with
           | |- context [Nat.eqb ?a ?b] =>
               destruct (Nat.eqb_spec a b)
           | |- context [(?a <? ?b)%Z] => destruct (Z.ltb_spec a b)
           | |- context [(?a >? ?b)%Z] =>
               rewrite (Z.gtb_ltb a b); destruct (Z.ltb_spec b a)
           end; lia.
Qed.

Lemma setActiveTab_keeps tab options g g' es :
  setActiveTab (Some tab) options g = Ok (g', es) ->
  focused g' = focused g /\ tabs g' = tabs g /\ placement g' = placement g.
Proof.
  intro R. destruct (changes_active_tab tab g) eqn:G.
  - destruct (setActiveTab_changes tab options g G) as [g1 [R1 A]].
    rewrite R1 in R. injection R as <- _.
    destruct A. auto.
  - rewrite (setActiveTab_ignores tab options g G) in R.
    injection R as <- _. auto.
Qed.

(** C4. In a group whose list of navigable tabs has [n] entries, one of
    which, at index [i], has focus, a Home, End or arrow key pressed on a tab
    of the group moves focus to the tab at index [0] for Home and [n-1] for
    End; an arrow key means previous or next by the placement axis (left and
    right for top and bottom, with the two exchanged in right-to-left mode;
    up and down for start and end), previous from index [0] lands on [n-1],
    and next from [n-1] lands on [0]. *)
Theorem C4_keyboard_navigation_wraps
        (g : SlTabGroup) (event : Event) (tab f : ref) (i : nat) :
  closest_tab event = Some tab ->
  closest_group_is_this event = true ->
  In (key event) navigation_keys ->
  focused g = Some f ->
  indexOf f (tabs g) = Z.of_nat i ->
  is_sl_tab g f = true ->
  exists el g' es,
    handleKeyDown event g = Ok (g', es)
    /\ nth_error (tabs g)
                 (move_index (List.length (tabs g)) i
                             (key_meaning (placement g) (dir g) (key event)))
       = Some el
    /\ focused g' = Some el
    /\ In (focus el) es
    /\ tabs g' = tabs g.
Proof.
  intros T G K F I S.
  pose proof (@indexOf_found f (tabs g) i I) as Hnth.
  assert (Hin : In f (tabs g)) by (eapply nth_error_In; exact Hnth).
  assert (Hi : i < List.length (tabs g))
    by (apply nth_error_Some; rewrite Hnth; discriminate).
  set (j := move_index (List.length (tabs g)) i
                       (key_meaning (placement g) (dir g) (key event))).
  assert (Hj : j < List.length (tabs g)).
  { unfold j, move_index.
    destruct (key_meaning (placement g) (dir g) (key event));
      repeat match goal with
             | |- context [Nat.eqb ?a ?b] => destruct (Nat.eqb_spec a b)
             end; lia. }
  destruct (nth_error (tabs g) j) as [el|] eqn:El;
    [|apply nth_error_None in El; lia].
  assert (Enter : includes ["Enter"; " "] (key event) = false).
  { cbn in K.
    destruct K as [K | [K | [K | [K | [K | [K | []]]]]]]; rewrite <- K;
      reflexivity. }
  assert (Nav : includes ["ArrowLeft"; "ArrowRight"; "ArrowUp"; "ArrowDown";
                          "Home"; "End"] (key event) = true).
  { cbn in K.
    destruct K as [K | [K | [K | [K | [K | [K | []]]]]]]; rewrite <- K;
      reflexivity. }
  assert (At : at_index (tabs g)
                        (next_index g (key event) (indexOf f (tabs g)))
               = Some el).
  { rewrite I, (@next_index_meaning g (key event) i K Hi). fold j. unfold at_index.
    destruct (Z.ltb_spec (Z.of_nat j) 0); [lia|].
    rewrite Nat2Z.id. exact El. }
  unfold handleKeyDown. rewrite T, G, Enter. cbn [negb JS.bind]. rewrite Nav.
  rewrite F, (@find_focused f (tabs g) Hin), S, At.
  change (activation (set_focused (Some el) g)) with (activation g).
  destruct (activation g).
  - destruct (setActiveTab_returns el smooth (set_focused (Some el) g))
      as [g' [es R]].
    rewrite R. cbn [JS.bind].
    destruct (@setActiveTab_keeps el smooth _ g' es R) as [Kf [Kt _]].
    exists el. eexists. eexists. split; [reflexivity|].
    repeat split.
    + exact Kf.
    + cbn. left. reflexivity.
    + exact Kt.
  - cbn [JS.bind]. exists el. eexists. eexists. split; [reflexivity|].
    repeat split. cbn. left. reflexivity.
Qed.

Lemma C4_keyboard_navigation_wraps_witness :
  exists el g' es,
    handleKeyDown (mkEvent "ArrowRight" (Some 0) true)
                  (set_focused (Some 0) (three_tabs rtl top))
    = Ok (g', es)
    /\ nth_error [0; 2] 1 = Some el
    /\ focused g' = Some el
    /\ In (focus el) es
    /\ tabs g' = [0; 2].
Proof.
  apply (@C4_keyboard_navigation_wraps
           (set_focused (Some 0) (three_tabs rtl top))
           (mkEvent "ArrowRight" (Some 0) true) 0 0 0).
  - reflexivity.
  - reflexivity.
  - cbn. right. left. reflexivity.
  - reflexivity.
  - reflexivity.
  - reflexivity.
Defined.

End TabGroupFacts.

(** ** Facts about the tooltip *)

Module TooltipFacts.
Import Tooltip.

Ltac unfold_tooltip :=
  unfold handleOpenChange, handleDisabledChange, continue, hide, show,
    write_open, write_disabled, waitForEvent, emit, stopAnimations, animateTo,
    suspend, record, set_open, set_disabled, set_body_hidden,
    set_popup_active, set_animations, set_deferreds, set_changed,
    set_suspended in *;
  cbn [open disabled body_hidden popup_active animations next_animation
       listeners settled next_deferred changed suspended history fst snd
       Bool.eqb negb andb] in *.

(** With the tooltip taken apart into its fields, the methods compute. *)
Ltac compute_tooltip :=
  cbv [handleOpenChange handleDisabledChange continue hide show
       write_open write_disabled waitForEvent emit stopAnimations animateTo
       suspend record set_open set_disabled set_body_hidden set_popup_active
       set_animations set_deferreds set_changed set_suspended
       open disabled body_hidden popup_active animations next_animation
       listeners settled next_deferred changed suspended history] in *;
  cbn [fst snd Bool.eqb negb andb] in *.

(** The cases of a step of the event loop, each computed. *)
Ltac step_cases a t H :=
  destruct t as [o d bh pa an na ls st nd ch su hi];
  destruct a as [|i|id]; cbn [step changed suspended] in H;
  [ destruct ch as [|[|] ws]; [discriminate H| |];
    injection H as <-; destruct o, d
  | let k := fresh "k" in
    let N := fresh "N" in
    destruct (nth_error su i) as [k|] eqn:N; [|discriminate H];
    match type of H with
    | (if ?c then _ else _) = _ => destruct c; [|discriminate H]
    end;
    injection H as <-; destruct k
  | match type of H with
    | (if ?c then _ else _) = _ => destruct c; [|discriminate H]
    end;
    injection H as <- ];
  compute_tooltip.

(** *** The guard against opening while disabled *)

(** C6. When [handleOpenChange] runs with [open] true and [disabled] true it
    returns at the guard and changes nothing: [open] is still true, nothing
    is added to the history, so neither sl-show nor sl-after-show fires, the
    body keeps its [hidden] flag, the popup stays inactive if it was, and no
    call is left suspended to do any of this later. *)
Theorem C6_open_change_is_ignored_while_disabled (t : SlTooltip) :
  open t = true -> disabled t = true ->
  handleOpenChange t = t
  /\ open (handleOpenChange t) = true
  /\ history (handleOpenChange t) = history t
  /\ body_hidden (handleOpenChange t) = body_hidden t
  /\ popup_active (handleOpenChange t) = popup_active t
  /\ suspended (handleOpenChange t) = suspended t.
Proof.
  intros O D.
  assert (E : handleOpenChange t = t)
    by (unfold handleOpenChange; rewrite O, D; reflexivity).
  rewrite E. repeat split. exact O.
Qed.

Lemma C6_open_change_is_ignored_while_disabled_witness :
  handleOpenChange (set_changed [] (snd (show resting_disabled)))
  = set_changed [] (snd (show resting_disabled))
  /\ open (set_changed [] (snd (show resting_disabled))) = true
  /\ body_hidden (set_changed [] (snd (show resting_disabled))) = true
  /\ popup_active (set_changed [] (snd (show resting_disabled))) = false.
Proof.
  split; [|repeat split].
  apply (@C6_open_change_is_ignored_while_disabled
           (set_changed [] (snd (show resting_disabled)))); reflexivity.
Defined.

(** *** Stopping and starting animations *)

Lemma handleOpenChange_keeps_popup_animations (t : SlTooltip) (a : Animation) :
  In a (animations t) -> target a = popup_popup ->
  In a (animations (handleOpenChange t)).
Proof.
  intros H T. unfold handleOpenChange.
  destruct (open t); [destruct (disabled t); [exact H|]|];
    unfold_tooltip; apply filter_In; (split; [exact H|]);
    rewrite T; reflexivity.
Qed.

Lemma step_spares_popup_animations a t t' x :
  step a t = Some t' ->
  (forall id, a <> finish id) ->
  In x (animations t) -> target x = popup_popup ->
  In x (animations t').
Proof.
  intros H F I T. step_cases a t H;
    try (exfalso; exact (F id eq_refl));
    try exact I;
    try (apply in_or_app; left; exact I);
    apply filter_In; (split; [exact I|]); rewrite T; reflexivity.
Qed.

(** C5, at the input where the program departs from it.  A rendered, enabled
    tooltip is shown and, while the show animation is in flight on
    [popup.popup], hidden.  The handler stops the animations of [body], which
    has none, and starts the hide animation on [popup.popup]: both animations
    are then in flight on that element and nothing was cancelled. *)
Theorem C5_show_animation_survives_hide :
  exists t,
    hide_during_show = Some t
    /\ animations t
       = [mkAnimation 0 popup_popup tooltip_show;
          mkAnimation 1 popup_popup tooltip_hide]
    /\ suspended t = [show_animateTo 0; hide_animateTo 1]
    /\ history t
       = [emitted sl_show; started (mkAnimation 0 popup_popup tooltip_show);
          emitted sl_hide; started (mkAnimation 1 popup_popup tooltip_hide)].
Proof.
  eexists. split; [vm_compute; reflexivity|]. repeat split.
Qed.

(** *** Counting notifications *)

Lemma count_emitted_app n h1 h2 :
  count_emitted n (h1 ++ h2) = count_emitted n h1 + count_emitted n h2.
Proof.
  unfold count_emitted. rewrite filter_app, length_app. reflexivity.
Qed.

Lemma count_emitted_cancelled n l : count_emitted n (map cancelled l) = 0.
Proof. induction l; [reflexivity | exact IHl]. Qed.

Lemma count_emitted_finished n l : count_emitted n (map finished l) = 0.
Proof. induction l; [reflexivity | exact IHl]. Qed.

Lemma shows_pending_app l1 l2 :
  shows_pending (l1 ++ l2) = shows_pending l1 + shows_pending l2.
Proof.
  unfold shows_pending. rewrite filter_app, length_app. reflexivity.
Qed.

Lemma hides_pending_app l1 l2 :
  hides_pending (l1 ++ l2) = hides_pending l1 + hides_pending l2.
Proof.
  unfold hides_pending. rewrite filter_app, length_app. reflexivity.
Qed.

Lemma shows_pending_remove l i k :
  nth_error l i = Some k ->
  shows_pending l = shows_pending (remove_nth i l) + shows_pending [k].
Proof.
  revert i. induction l as [|x l IH]; intros i H.
  - destruct i; discriminate H.
  - destruct i as [|i].
    + injection H as ->. cbn [remove_nth].
      change (k :: l) with ([k] ++ l). rewrite shows_pending_app. lia.
    + cbn [remove_nth nth_error] in *.
      change (x :: l) with ([x] ++ l).
      change (x :: remove_nth i l) with ([x] ++ remove_nth i l).
      rewrite !shows_pending_app, (IH i H). lia.
Qed.

Lemma hides_pending_remove l i k :
  nth_error l i = Some k ->
  hides_pending l = hides_pending (remove_nth i l) + hides_pending [k].
Proof.
  revert i. induction l as [|x l IH]; intros i H.
  - destruct i; discriminate H.
  - destruct i as [|i].
    + injection H as ->. cbn [remove_nth].
      change (k :: l) with ([k] ++ l). rewrite hides_pending_app. lia.
    + cbn [remove_nth nth_error] in *.
      change (x :: l) with ([x] ++ l).
      change (x :: remove_nth i l) with ([x] ++ remove_nth i l).
      rewrite !hides_pending_app, (IH i H). lia.
Qed.

Lemma shows_due_closed d l : shows_due false d l = 0.
Proof.
  induction l as [|[|] l IH]; cbn; [reflexivity | exact IH |].
  destruct d; exact IH.
Qed.

Lemma shows_due_disabled o l : shows_due o true l = 0.
Proof.
  revert o. induction l as [|[|] l IH]; intro o; cbn.
  - reflexivity.
  - rewrite andb_false_r. apply IH.
  - apply IH.
Qed.

Lemma shows_due_app o d l :
  shows_due o d (l ++ [open_watcher])
  = shows_due o d l + (if open_after o d l && negb d then 1 else 0).
Proof.
  revert o. induction l as [|[|] l IH]; intro o; cbn.
  - lia.
  - rewrite IH. lia.
  - apply IH.
Qed.

Lemma hides_due_app o d l :
  hides_due o d (l ++ [open_watcher])
  = hides_due o d l + (if open_after o d l then 0 else 1).
Proof.
  revert o. induction l as [|[|] l IH]; intro o; cbn.
  - lia.
  - rewrite IH. lia.
  - destruct (d && o); rewrite IH; lia.
Qed.

Lemma open_after_closed d l : open_after false d l = false.
Proof.
  induction l as [|[|] l IH]; cbn; [reflexivity | exact IH |].
  rewrite andb_false_r. exact IH.
Qed.

Lemma open_after_app o d l w :
  open_after o d (l ++ [w])
  = match w with
    | open_watcher => open_after o d l
    | disabled_watcher => open_after o d l && negb d
    end.
Proof.
  revert o. induction l as [|[|] l IH]; intro o; cbn.
  - destruct w; [reflexivity|]. destruct d, o; reflexivity.
  - apply IH.
  - apply IH.
Qed.

(** Normal form of the counts over a history or a list of suspended calls. *)
Ltac count_effects :=
  rewrite ?count_emitted_app, ?count_emitted_cancelled,
    ?count_emitted_finished, ?shows_pending_app, ?hides_pending_app;
  cbn [count_emitted shows_pending hides_pending filter List.length
       notification_eqb].

Lemma step_disabled a t t' : step a t = Some t' -> disabled t' = disabled t.
Proof.
  intro H. step_cases a t H; reflexivity.
Qed.

Lemma step_shown_total a t t' :
  step a t = Some t' -> shown_total t' = shown_total t.
Proof.
  unfold shown_total. intro H. step_cases a t H;
    rewrite ?(@shows_pending_remove su i _ N);
    count_effects; cbn [shows_due andb negb];
    rewrite ?shows_due_disabled, ?shows_due_closed; lia.
Qed.

Lemma step_hidden_total a t t' :
  step a t = Some t' -> hidden_total t' = hidden_total t.
Proof.
  unfold hidden_total. intro H. step_cases a t H;
    rewrite ?(@hides_pending_remove su i _ N);
    count_effects; cbn [hides_due andb negb];
    rewrite ?hides_due_app, ?open_after_closed; lia.
Qed.

Lemma step_open_after a t t' :
  step a t = Some t' ->
  open_after (open t') (disabled t') (changed t')
  = open_after (open t) (disabled t) (changed t).
Proof.
  intro H. step_cases a t H; rewrite ?open_after_app; reflexivity.
Qed.

Lemma run_totals schedule t t' :
  run schedule t = Some t' ->
  shown_total t' = shown_total t
  /\ hidden_total t' = hidden_total t
  /\ open_after (open t') (disabled t') (changed t')
     = open_after (open t) (disabled t) (changed t).
Proof.
  revert t. induction schedule as [|a rest IH]; intros t H.
  - injection H as <-. auto.
  - cbn [run] in H. destruct (step a t) as [t1|] eqn:S; [|discriminate H].
    destruct (IH t1 H) as [A [B C]].
    rewrite A, B, C, (step_shown_total _ _ S), (step_hidden_total _ _ S),
      (step_open_after _ _ S). auto.
Qed.

Lemma quiescent_totals t :
  quiescent t = true ->
  shown_total t = count_emitted sl_after_show (history t)
  /\ hidden_total t = count_emitted sl_after_hide (history t)
  /\ open_after (open t) (disabled t) (changed t) = open t.
Proof.
  unfold quiescent, shown_total, hidden_total. intro Q.
  destruct (changed t); [|discriminate Q].
  destruct (suspended t); [|discriminate Q].
  cbn. repeat split; lia.
Qed.

(** *** Every run can be completed *)

Lemma filter_negb_shorter {A : Type} (f : A -> bool) (l : list A) :
  existsb f l = true ->
  List.length (filter (fun a => negb (f a)) l) < List.length l.
Proof.
  induction l as [|x l IH]; intro H; [discriminate H|].
  cbn [existsb filter] in *. destruct (f x); cbn [negb List.length].
  - pose proof (filter_length_le (fun a => negb (f a)) l). lia.
  - cbn [orb] in H. specialize (IH H). lia.
Qed.

Lemma next_action_progress t :
  quiescent t = false ->
  exists a t', next_action t = Some a /\ step a t = Some t' /\ work t' < work t.
Proof.
  intro Q. destruct t as [o d bh pa an na ls st nd ch su hi].
  unfold quiescent, next_action in *. cbn [changed suspended] in *.
  destruct ch as [|w ws].
  - destruct su as [|k su]; [discriminate Q|].
    destruct (completed k _) eqn:C.
    + exists (resume 0). eexists. split; [reflexivity|].
      cbn [step suspended nth_error]. rewrite C. split; [reflexivity|].
      cbn [remove_nth]. destruct k; compute_tooltip; unfold work;
        cbn [changed suspended animations];
        rewrite ?map_app, ?list_sum_app, ?length_app;
        unfold list_sum; cbn [map fold_right List.length]; lia.
    + destruct k; try discriminate C;
        cbn [completed] in C; apply negb_false_iff in C;
        exists (finish id); eexists; (split; [reflexivity|]);
        cbn [step]; rewrite C; (split; [reflexivity|]);
        compute_tooltip; unfold work;
        cbn [changed suspended animations];
        unfold in_flight in C; cbn [animations] in C;
        pose proof (filter_negb_shorter _ _ C) as L; lia.
  - destruct w; exists run_watcher; eexists; (split; [reflexivity|]);
      cbn [step changed]; (split; [reflexivity|]);
      destruct o, d; compute_tooltip; unfold work;
      cbn [changed suspended animations];
      rewrite ?map_app, ?list_sum_app, ?length_app;
      unfold list_sum; cbn [map fold_right List.length];
      pose proof (filter_length_le
                    (fun a => negb (element_eqb (target a) body)) an) as L;
      lia.
Qed.

Lemma drain_completes fuel t :
  work t < fuel ->
  exists schedule t',
    drain fuel t = (schedule, t')
    /\ run schedule t = Some t' /\ quiescent t' = true.
Proof.
  revert t. induction fuel as [|fuel IH]; intros t W; [lia|].
  destruct (quiescent t) eqn:Q.
  - exists [], t. repeat split; [|exact Q].
    cbn [drain]. unfold quiescent in Q. unfold next_action.
    destruct (changed t); [|discriminate Q].
    destruct (suspended t); [reflexivity | discriminate Q].
  - destruct (next_action_progress t Q) as [a [t1 [N [S L]]]].
    destruct (IH t1 ltac:(lia)) as [schedule [t' [D [R Q']]]].
    exists (a :: schedule), t'. repeat split.
    + cbn [drain]. rewrite N, S, D. reflexivity.
    + cbn [run]. rewrite S. exact R.
    + exact Q'.
Qed.

Lemma run_completes t :
  exists schedule t', run schedule t = Some t' /\ quiescent t' = true.
Proof.
  destruct (@drain_completes (S (work t)) t ltac:(lia))
    as [schedule [t' [_ H]]].
  exists schedule, t'. exact H.
Qed.

(** *** Deferreds resolve when their notification fires *)

Lemma tracked_emit d n c0 ls st nd c m :
  tracked d n c0 ls st nd c ->
  tracked d n c0
          (filter (fun l => negb (notification_eqb (snd l) m)) ls)
          (st ++ map fst (filter (fun l => notification_eqb (snd l) m) ls))
          nd (c + count_emitted n [emitted m]).
Proof.
  intros [[I [N [L [U E]]]] | [I G]].
  - destruct (notification_eqb m n) eqn:M.
    + right. split.
      * apply in_or_app. right.
        change d with (fst (d, n)). apply in_map. apply filter_In.
        split; [exact I|]. cbn [snd]. destruct m, n; try discriminate M;
          reflexivity.
      * cbn. rewrite M. cbn. lia.
    + left. repeat split.
      * apply filter_In. split; [exact I|]. cbn [snd].
        destruct m, n; try discriminate M; reflexivity.
      * intro K. apply in_app_or in K. destruct K as [K | K]; [exact (N K)|].
        apply in_map_iff in K. destruct K as [[d' m'] [E1 K]].
        cbn [fst] in E1. subst d'. apply filter_In in K.
        destruct K as [K1 K2]. cbn [snd] in K2.
        rewrite (U m' K1) in K2.
        destruct m, n; try discriminate M; discriminate K2.
      * exact L.
      * intros m' K. apply filter_In in K. exact (U m' (proj1 K)).
      * cbn. rewrite M. cbn. lia.
  - right. split.
    + apply in_or_app. left. exact I.
    + lia.
Qed.

Lemma tracked_wait d n c0 ls st nd c m :
  tracked d n c0 ls st nd c ->
  tracked d n c0 (ls ++ [(nd, m)]) st (S nd) c.
Proof.
  intros [[I [N [L [U E]]]] | [I G]].
  - left. repeat split.
    + apply in_or_app. left. exact I.
    + exact N.
    + lia.
    + intros m' K. apply in_app_or in K. destruct K as [K | K].
      * exact (U m' K).
      * destruct K as [K | []]. injection K as K1 K2. lia.
    + exact E.
  - right. split; assumption.
Qed.

Lemma step_tracks id0 n c0 a t t' :
  step a t = Some t' -> tracks id0 n c0 t -> tracks id0 n c0 t'.
Proof.
  unfold tracks. intros H T. step_cases a t H; count_effects;
    rewrite ?Nat.add_0_r;
    repeat match goal with
           | |- tracked _ _ _ (filter _ _) _ _ _ => apply tracked_emit
           | |- tracked _ _ _ (_ ++ _) _ _ _ => apply tracked_wait
           end;
    exact T.
Qed.

Lemma run_tracks d n c0 schedule t t' :
  run schedule t = Some t' -> tracks d n c0 t -> tracks d n c0 t'.
Proof.
  revert t. induction schedule as [|a rest IH]; intros t H T.
  - injection H as <-. exact T.
  - cbn [run] in H. destruct (step a t) as [t1|] eqn:S; [|discriminate H].
    exact (IH t1 H (@step_tracks d n c0 a t t1 S T)).
Qed.

Lemma tracks_settled d n c0 t :
  tracks d n c0 t ->
  (In d (settled t) <-> count_emitted n (history t) > c0).
Proof.
  intros [[_ [N [_ [_ E]]]] | [I G]]; split; intro H.
  - contradiction.
  - lia.
  - exact G.
  - exact I.
Qed.

(** Freshness of the deferreds is kept by the event loop and by the
    methods. *)
Lemma fresh_emit ls st nd m :
  fresh ls st nd ->
  fresh (filter (fun l => negb (notification_eqb (snd l) m)) ls)
        (st ++ map fst (filter (fun l => notification_eqb (snd l) m) ls))
        nd.
Proof.
  intros [F1 F2]. split.
  - intros d n K. apply filter_In in K. exact (F1 d n (proj1 K)).
  - intros d K. apply in_app_or in K. destruct K as [K | K]; [exact (F2 d K)|].
    apply in_map_iff in K. destruct K as [[d' n] [E K]].
    cbn [fst] in E. subst d'. apply filter_In in K. exact (F1 d n (proj1 K)).
Qed.

Lemma fresh_wait ls st nd m :
  fresh ls st nd -> fresh (ls ++ [(nd, m)]) st (S nd).
Proof.
  intros [F1 F2]. split.
  - intros d n K. apply in_app_or in K. destruct K as [K | [K | []]].
    + specialize (F1 d n K). lia.
    + injection K as <- _. lia.
  - intros d K. specialize (F2 d K). lia.
Qed.

Lemma step_fresh a t t' :
  step a t = Some t' -> deferreds_fresh t -> deferreds_fresh t'.
Proof.
  unfold deferreds_fresh. intros H F. step_cases a t H;
    repeat match goal with
           | |- fresh (filter _ _) _ _ => apply fresh_emit
           | |- fresh (_ ++ _) _ _ => apply fresh_wait
           end;
    exact F.
Qed.

Lemma show_fresh t : deferreds_fresh t -> deferreds_fresh (snd (show t)).
Proof.
  unfold deferreds_fresh. intro F.
  destruct t as [o d bh pa an na ls st nd ch su hi].
  destruct o; compute_tooltip; [exact F | apply fresh_wait; exact F].
Qed.

Lemma hide_fresh t : deferreds_fresh t -> deferreds_fresh (snd (hide t)).
Proof.
  unfold deferreds_fresh. intro F.
  destruct t as [o d bh pa an na ls st nd ch su hi].
  destruct o; compute_tooltip; [apply fresh_wait; exact F | exact F].
Qed.

(** *** Calls of [show()] and [hide()] *)

Lemma show_tracks t :
  open t = false -> deferreds_fresh t ->
  tracks (next_deferred t) sl_after_show
         (count_emitted sl_after_show (history t)) (snd (show t)).
Proof.
  unfold tracks. intros O [F1 F2].
  destruct t as [o d bh pa an na ls st nd ch su hi].
  cbn [open] in O. subst o. compute_tooltip.
  left. repeat split.
  - apply in_or_app. right. left. reflexivity.
  - intro K. specialize (F2 nd K). lia.
  - lia.
  - intros m K. apply in_app_or in K. destruct K as [K | [K | []]].
    + specialize (F1 nd m K). lia.
    + injection K as <-. reflexivity.
Qed.

Lemma hide_tracks t :
  open t = true -> deferreds_fresh t ->
  tracks (next_deferred t) sl_after_hide
         (count_emitted sl_after_hide (history t)) (snd (hide t)).
Proof.
  unfold tracks. intros O [F1 F2].
  destruct t as [o d bh pa an na ls st nd ch su hi].
  cbn [open] in O. subst o. compute_tooltip.
  left. repeat split.
  - apply in_or_app. right. left. reflexivity.
  - intro K. specialize (F2 nd K). lia.
  - lia.
  - intros m K. apply in_app_or in K. destruct K as [K | [K | []]].
    + specialize (F1 nd m K). lia.
    + injection K as <-. reflexivity.
Qed.

Lemma fires_exactly_total n k t0 t1 :
  (forall schedule t',
      run schedule t1 = Some t' -> quiescent t' = true ->
      count_emitted n (history t') = count_emitted n (history t0) + k) ->
  fires_exactly n k t0 t1.
Proof.
  intro H. split; [apply run_completes | exact H].
Qed.

(** C7, as the program has it.  [show()] on an open tooltip returns
    [undefined] and changes nothing, and so does [hide()] on a closed one.
    On a closed tooltip [show()] sets [open] and returns a deferred that
    resolves exactly when sl-after-show next fires; a second [show()] right
    after it is then the call on an open tooltip.  After the two calls a
    tooltip with no handler due fires sl-after-show once, besides the calls
    of the handler already under way, if it is not disabled, and not at all
    if it is disabled.  [hide()] on an open tooltip sets [open] to false and
    returns a deferred that resolves exactly when sl-after-hide next fires,
    and after [hide()] twice sl-after-hide fires once. *)
Theorem C7_show_and_hide_notify_once (t : SlTooltip) :
  (open t = true -> show t = (None, t))
  /\ (open t = false -> hide t = (None, t))
  /\ (open t = false ->
      show t = (Some (next_deferred t), snd (show t))
      /\ open (snd (show t)) = true
      /\ show (snd (show t)) = (None, snd (show t))
      /\ (deferreds_fresh t ->
          resolves_on (next_deferred t) sl_after_show t (snd (show t)))
      /\ (changed t = [] ->
          fires_exactly sl_after_show
                        (shows_pending (suspended t)
                         + (if disabled t then 0 else 1))
                        t (snd (show (snd (show t))))))
  /\ (open t = true ->
      hide t = (Some (next_deferred t), snd (hide t))
      /\ open (snd (hide t)) = false
      /\ hide (snd (hide t)) = (None, snd (hide t))
      /\ (deferreds_fresh t ->
          resolves_on (next_deferred t) sl_after_hide t (snd (hide t)))
      /\ (changed t = [] ->
          fires_exactly sl_after_hide (hides_pending (suspended t) + 1)
                        t (snd (hide (snd (hide t)))))).
Proof.
  split; [|split; [|split]].
  - intro O. unfold show. rewrite O. reflexivity.
  - intro O. unfold hide. rewrite O. reflexivity.
  - intro O.
    assert (S2 : show (snd (show t)) = (None, snd (show t))).
    { destruct t as [o d bh pa an na ls st nd ch su hi].
      cbn [open] in O. subst o. reflexivity. }
    split; [|split; [|split; [|split]]].
    + destruct t as [o d bh pa an na ls st nd ch su hi].
      cbn [open] in O. subst o. reflexivity.
    + destruct t as [o d bh pa an na ls st nd ch su hi].
      cbn [open] in O. subst o. reflexivity.
    + exact S2.
    + intros F schedule t' R.
      apply tracks_settled.
      exact (@run_tracks _ _ _ schedule _ t' R (@show_tracks t O F)).
    + intro C. apply fires_exactly_total. intros schedule t' R Q.
      rewrite S2 in R. cbn [snd] in R.
      destruct (@run_totals schedule _ t' R) as [A _].
      destruct (@quiescent_totals t' Q) as [B _].
      rewrite <- B, A. unfold shown_total.
      destruct t as [o d bh pa an na ls st nd ch su hi].
      cbn [open changed] in O, C. subst o ch. compute_tooltip.
      cbn [app shows_due open_after]. destruct d; cbn [andb negb]; lia.
  - intro O.
    assert (S2 : hide (snd (hide t)) = (None, snd (hide t))).
    { destruct t as [o d bh pa an na ls st nd ch su hi].
      cbn [open] in O. subst o. reflexivity. }
    split; [|split; [|split; [|split]]].
    + destruct t as [o d bh pa an na ls st nd ch su hi].
      cbn [open] in O. subst o. reflexivity.
    + destruct t as [o d bh pa an na ls st nd ch su hi].
      cbn [open] in O. subst o. reflexivity.
    + exact S2.
    + intros F schedule t' R.
      apply tracks_settled.
      exact (@run_tracks _ _ _ schedule _ t' R (@hide_tracks t O F)).
    + intro C. apply fires_exactly_total. intros schedule t' R Q.
      rewrite S2 in R. cbn [snd] in R.
      destruct (@run_totals schedule _ t' R) as [_ [A _]].
      destruct (@quiescent_totals t' Q) as [_ [B _]].
      rewrite <- B, A. unfold hidden_total.
      destruct t as [o d bh pa an na ls st nd ch su hi].
      cbn [open changed] in O, C. subst o ch. compute_tooltip.
      cbn [app hides_due]. lia.
Qed.

Lemma resting_fresh : deferreds_fresh resting.
Proof.
  split; intros; contradiction.
Qed.

Lemma C7_show_and_hide_notify_once_witness :
  show resting = (Some 0, snd (show resting))
  /\ show (snd (show resting)) = (None, snd (show resting))
  /\ resolves_on 0 sl_after_show resting (snd (show resting))
  /\ fires_exactly sl_after_show 1 resting (snd (show (snd (show resting)))).
Proof.
  destruct (C7_show_and_hide_notify_once resting) as [_ [_ [H _]]].
  destruct (H eq_refl) as [A [_ [B [C D]]]].
  split; [exact A|]. split; [exact B|]. split.
  - exact (C resting_fresh).
  - exact (D eq_refl).
Defined.

(** The claim's count fails for a disabled tooltip: [show()] sets [open],
    the handler returns at its guard, and the tooltip comes to rest without
    sl-after-show ever firing. *)
Lemma C7_disabled_tooltip_is_never_shown :
  fst (show resting_disabled) = Some 0
  /\ open shown_twice_while_disabled = true
  /\ fires_exactly sl_after_show 0 resting_disabled shown_twice_while_disabled
  /\ ~ fires_exactly sl_after_show 1 resting_disabled
                     shown_twice_while_disabled.
Proof.
  assert (Z : forall schedule t',
             run schedule shown_twice_while_disabled = Some t' ->
             quiescent t' = true ->
             count_emitted sl_after_show (history t') = 0).
  { intros schedule t' R Q.
    destruct (@run_totals schedule _ t' R) as [A _].
    destruct (@quiescent_totals t' Q) as [B _].
    rewrite <- B, A. reflexivity. }
  split; [reflexivity|]. split; [reflexivity|]. split.
  - apply fires_exactly_total. exact Z.
  - intros [[schedule [t' [R Q]]] H].
    specialize (H schedule t' R Q). rewrite (Z schedule t' R Q) in H.
    discriminate H.
Qed.

(** *** Disabling an open tooltip *)

Lemma hides_due_disable l :
  hides_due true true (l ++ [disabled_watcher]) >= 1.
Proof.
  induction l as [|[|] l IH]; cbn; lia.
Qed.

Lemma disabling_hides_in_the_end t schedule t' :
  open t = true -> disabled t = false -> changed t = [] ->
  run schedule (write_disabled true t) = Some t' ->
  quiescent t' = true ->
  open t' = false
  /\ count_emitted sl_after_hide (history t')
     > count_emitted sl_after_hide (history t) + hides_pending (suspended t).
Proof.
  intros O D C R Q.
  destruct (@run_totals schedule _ t' R) as [_ [A B]].
  destruct (@quiescent_totals t' Q) as [_ [A' B']].
  rewrite <- B', B, <- A', A. unfold hidden_total.
  destruct t as [o d bh pa an na ls st nd ch su hi].
  cbn [open disabled changed] in O, D, C. subst o d ch. compute_tooltip.
  cbn [app hides_due open_after andb]. split; [reflexivity | lia].
Qed.

(** *** The two event loops *)

Lemma run_app s1 s2 t :
  run (s1 ++ s2) t
  = match run s1 t with
    | Some t1 => run s2 t1
    | None => None
    end.
Proof.
  revert t. induction s1 as [|a s1 IH]; intro t; [reflexivity|].
  cbn [app run]. destruct (step a t); [apply IH | reflexivity].
Qed.

(** When one write waits for the update, the update is the call of its
    handler, followed by the call of the handler of [open] if the first one
    wrote [open]. *)
Lemma performUpdate_one_write w t :
  changed t = [w] ->
  changed (performUpdate t) = []
  /\ exists schedule, run schedule t = Some (performUpdate t).
Proof.
  destruct t as [o d bh pa an na ls st nd ch su hi].
  cbn [changed]. intros ->.
  destruct w, o, d; (split; [reflexivity|]);
    first [ exists [run_watcher]; reflexivity
          | exists [run_watcher; run_watcher]; reflexivity ].
Qed.

Lemma step_keeps_changed a t t' :
  a <> run_watcher -> step a t = Some t' -> changed t' = changed t.
Proof.
  intros N H. step_cases a t H;
    try (exfalso; apply N; reflexivity); reflexivity.
Qed.

(** A run of the program's loop from a tooltip on which at most one write
    waits for the update is a run of [step]: what holds of every run of
    [step] from there holds of the program. *)
Lemma run_batched_is_a_run schedule :
  forall t t',
    List.length (changed t) <= 1 ->
    run_batched schedule t = Some t' ->
    exists schedule', run schedule' t = Some t'.
Proof.
  induction schedule as [|a rest IH]; intros t t' L R.
  - injection R as <-. exists []. reflexivity.
  - cbn [run_batched] in R.
    destruct (step_batched a t) as [t1|] eqn:S; [|discriminate R].
    destruct a as [|i|id].
    + cbn [step_batched] in S.
      destruct (changed t) as [|w [|w2 ws]] eqn:C;
        [discriminate S| |cbn [List.length] in L; lia].
      injection S as <-.
      destruct (@performUpdate_one_write w t C) as [C1 [s0 R0]].
      destruct (IH (performUpdate t) t' ltac:(rewrite C1; cbn; lia) R)
        as [s1 R1].
      exists (s0 ++ s1). rewrite run_app, R0. exact R1.
    + cbn [step_batched] in S.
      assert (K : changed t1 = changed t)
        by (apply (@step_keeps_changed (resume i) t t1); [discriminate|exact S]).
      destruct (IH t1 t' ltac:(rewrite K; exact L) R) as [s1 R1].
      exists (resume i :: s1). cbn [run]. rewrite S. exact R1.
    + cbn [step_batched] in S.
      assert (K : changed t1 = changed t)
        by (apply (@step_keeps_changed (finish id) t t1); [discriminate|exact S]).
      destruct (IH t1 t' ltac:(rewrite K; exact L) R) as [s1 R1].
      exists (finish id :: s1). cbn [run]. rewrite S. exact R1.
Qed.

(** With no write waiting, and none is made without a call from outside,
    the two loops are the same. *)
Lemma run_is_batched_without_writes schedule :
  forall t t',
    changed t = [] ->
    run schedule t = Some t' -> run_batched schedule t = Some t'.
Proof.
  induction schedule as [|a rest IH]; intros t t' C R; [exact R|].
  cbn [run] in R. destruct (step a t) as [t1|] eqn:S; [|discriminate R].
  destruct a as [|i|id].
  - cbn [step] in S. rewrite C in S. discriminate S.
  - cbn [run_batched step_batched]. rewrite S. apply IH; [|exact R].
    rewrite (@step_keeps_changed (resume i) t t1); [exact C|discriminate|exact S].
  - cbn [run_batched step_batched]. rewrite S. apply IH; [|exact R].
    rewrite (@step_keeps_changed (finish id) t t1); [exact C|discriminate|exact S].
Qed.

Lemma run_batched_stuck t schedule t' :
  changed t = [] -> suspended t = [] -> animations t = [] ->
  run_batched schedule t = Some t' -> t' = t.
Proof.
  intros C S A R. destruct schedule as [|a rest].
  - injection R as <-. reflexivity.
  - cbn [run_batched] in R. destruct a as [|i|id]; cbn [step_batched step] in R.
    + rewrite C in R. discriminate R.
    + rewrite S in R. destruct i; discriminate R.
    + unfold in_flight in R. rewrite A in R. discriminate R.
Qed.

(** C8, as the program has it.  On a tooltip with [open] true on which no
    write waits for the update, setting [disabled] from false to true makes
    [handleDisabledChange] due; it calls [hide()], and the update goes on to
    call [handleOpenChange] for the write that [hide()] has made.  Left to
    itself the tooltip then comes to rest, and whenever it has, [open] is
    false and sl-after-hide has fired, once more at least than the calls of
    the handler already under way account for. *)
Theorem C8_disabling_while_open_hides (t : SlTooltip) :
  open t = true -> disabled t = false -> changed t = [] ->
  changed (write_disabled true t) = [disabled_watcher]
  /\ (forall t0, disabled t0 = true -> open t0 = true ->
                handleDisabledChange t0 = snd (hide t0))
  /\ performUpdate (write_disabled true t)
     = handleOpenChange
         (set_changed []
            (snd (hide (set_changed [] (write_disabled true t)))))
  /\ (exists schedule t',
         run_batched schedule (write_disabled true t) = Some t'
         /\ quiescent t' = true)
  /\ (forall schedule t',
         run_batched schedule (write_disabled true t) = Some t' ->
         quiescent t' = true ->
         open t' = false
         /\ count_emitted sl_after_hide (history t')
            > count_emitted sl_after_hide (history t)
              + hides_pending (suspended t)).
Proof.
  intros O D C.
  assert (W : changed (write_disabled true t) = [disabled_watcher])
    by (unfold write_disabled; rewrite D, C; reflexivity).
  split; [exact W|]. split; [|split; [|split]].
  - intros t0 D0 O0. unfold handleDisabledChange. rewrite D0, O0. reflexivity.
  - destruct t as [o d bh pa an na ls st nd ch su hi].
    cbn [open disabled changed] in O, D, C. subst o d ch. reflexivity.
  - destruct (@performUpdate_one_write disabled_watcher _ W) as [C1 _].
    destruct (run_completes (performUpdate (write_disabled true t)))
      as [schedule [t' [R Q]]].
    exists (run_watcher :: schedule), t'. split; [|exact Q].
    cbn [run_batched step_batched]. rewrite W.
    apply run_is_batched_without_writes; assumption.
  - intros schedule t' R Q.
    destruct (@run_batched_is_a_run schedule (write_disabled true t) t'
                ltac:(rewrite W; cbn; lia) R) as [schedule' R'].
    exact (@disabling_hides_in_the_end t schedule' t' O D C R' Q).
Qed.

Lemma C8_disabling_while_open_hides_witness :
  open resting_open = true
  /\ disabled resting_open = false
  /\ changed resting_open = []
  /\ (exists schedule t',
         run_batched schedule (write_disabled true resting_open) = Some t'
         /\ quiescent t' = true)
  /\ (forall schedule t',
         run_batched schedule (write_disabled true resting_open) = Some t' ->
         quiescent t' = true ->
         open t' = false
         /\ count_emitted sl_after_hide (history t') > 0).
Proof.
  split; [reflexivity|]. split; [reflexivity|]. split; [reflexivity|].
  destruct (C8_disabling_while_open_hides resting_open eq_refl eq_refl eq_refl)
    as [_ [_ [_ [A B]]]].
  split; [exact A | exact B].
Defined.

(** The claim fails without these provisos.  When [show()] is followed by
    [disabled = true] before the element has updated, the update handles
    both writes: [handleDisabledChange] calls [hide()], [open] is back to
    the value it had, [handleOpenChange] is not called, and the tooltip is
    at rest with [open] false and no notification fired, then or later.  And
    on a tooltip that is open while disabled, assigning [true] to [disabled]
    changes nothing: it stays as it is, with [open] true. *)
Lemma C8_disabling_before_the_update_fires_nothing :
  (open (snd (show resting)) = true
   /\ disabled (snd (show resting)) = false
   /\ changed disabled_before_update = [open_watcher; disabled_watcher]
   /\ run_batched [run_watcher] disabled_before_update
      = Some (performUpdate disabled_before_update)
   /\ quiescent (performUpdate disabled_before_update) = true
   /\ open (performUpdate disabled_before_update) = false
   /\ (forall schedule t',
          run_batched schedule disabled_before_update = Some t' ->
          history t' = []))
  /\ (open open_while_disabled = true
      /\ disabled open_while_disabled = true
      /\ quiescent open_while_disabled = true
      /\ history open_while_disabled = []
      /\ write_disabled true open_while_disabled = open_while_disabled
      /\ (forall schedule t',
             run_batched schedule open_while_disabled = Some t' ->
             t' = open_while_disabled)).
Proof.
  split.
  - split; [reflexivity|]. split; [reflexivity|]. split; [reflexivity|].
    split; [reflexivity|]. split; [vm_compute; reflexivity|].
    split; [vm_compute; reflexivity|].
    intros schedule t' R. destruct schedule as [|a rest].
    + injection R as <-. reflexivity.
    + cbn [run_batched] in R. destruct a as [|i|id].
      * change (step_batched run_watcher disabled_before_update)
          with (Some (performUpdate disabled_before_update)) in R.
        apply run_batched_stuck in R; try (vm_compute; reflexivity).
        subst t'. vm_compute. reflexivity.
      * destruct i; discriminate R.
      * discriminate R.
  - split; [vm_compute; reflexivity|]. split; [vm_compute; reflexivity|].
    split; [vm_compute; reflexivity|]. split; [vm_compute; reflexivity|].
    split; [vm_compute; reflexivity|].
    intros schedule t' R.
    apply run_batched_stuck in R; try (vm_compute; reflexivity). exact R.
Qed.

End TooltipFacts.

(** ** Further facts about the tab group *)

Module TabGroupRestFacts.
Import TabGroup TabGroupRest TabGroupFacts.

Unset Implicit Arguments.

(** *** Keyboard handling *)

Lemma indexOf_in_range (x : ref) (l : list ref) :
  In x l -> (0 <= indexOf x l < Z.of_nat (List.length l))%Z.
Proof.
  induction l as [|y l IH]; intro H; [contradiction|].
  cbn [indexOf List.length]. destruct (Nat.eqb y x) eqn:E; [lia|].
  destruct H as [H | H].
  - subst y. rewrite Nat.eqb_refl in E. discriminate E.
  - specialize (IH H). destruct (Z.ltb_spec (indexOf x l) 0); lia.
Qed.

Lemma next_index_in_range (g : SlTabGroup) (k : string) (i : Z) :
  (0 <= i < Z.of_nat (List.length (tabs g)))%Z ->
  (0 <= next_index g k i < Z.of_nat (List.length (tabs g)))%Z.
Proof.
  intro I. unfold next_index.
  repeat match goal with
         | |- context [if ?c then _ else _] =>
             lazymatch c with
             | (_ <? _)%Z => fail
             | (_ >? _)%Z => fail
             | _ => destruct c
             end
         end;
    repeat match goal with
           | |- context [(?a <? ?b)%Z] => destruct (Z.ltb_spec a b)
           | |- context [(?a >? ?b)%Z] =>
               rewrite (Z.gtb_ltb a b); destruct (Z.ltb_spec b a)
           end; lia.
Qed.

Lemma at_index_in_range {A : Type} (l : list A) (i : Z) :
  (0 <= i < Z.of_nat (List.length l))%Z -> exists x, at_index l i = Some x.
Proof.
  intro I. unfold at_index. destruct (Z.ltb_spec i 0); [lia|].
  destruct (nth_error l (Z.to_nat i)) as [x|] eqn:E.
  - exists x. reflexivity.
  - apply nth_error_None in E. lia.
Qed.

(** X1. [handleKeyDown] never throws, whatever the event and the state of the
    group: the index it computes from the focused tab always lies inside the
    cached list, so [this.tabs[index]] is never [undefined]. *)
Theorem X1_handleKeyDown_never_throws (event : Event) (g : SlTabGroup) :
  exists g' es, handleKeyDown event g = Ok (g', es).
Proof.
  unfold handleKeyDown.
  destruct (closest_tab event) as [tab|]; [|eexists; eexists; reflexivity].
  destruct (closest_group_is_this event);
    [|eexists; eexists; reflexivity].
  cbn [negb].
  assert (A : exists g1 es1,
             (if includes ["Enter"; " "] (key event)
              then '(g0, es) <- setActiveTab (Some tab) smooth g ;;
                   Ok (g0, es ++ [preventDefault])
              else Ok (g, [])) = Ok (g1, es1)).
  { destruct (includes ["Enter"; " "] (key event)).
    - destruct (setActiveTab_returns tab smooth g) as [g1 [es1 R]].
      rewrite R. eexists. eexists. reflexivity.
    - eexists. eexists. reflexivity. }
  destruct A as [g1 [es1 A]]. rewrite A. clear A. cbn [JS.bind].
  destruct (includes ["ArrowLeft"; "ArrowRight"; "ArrowUp"; "ArrowDown";
                      "Home"; "End"] (key event));
    [|eexists; eexists; reflexivity].
  match goal with
  | |- context [find ?f (tabs g1)] =>
      destruct (find f (tabs g1)) as [activeEl|] eqn:F
  end; [|eexists; eexists; reflexivity].
  destruct (is_sl_tab g1 activeEl); [|eexists; eexists; reflexivity].
  apply find_some in F. destruct F as [F _].
  destruct (at_index_in_range (tabs g1) _
              (next_index_in_range g1 (key event) _
                 (indexOf_in_range activeEl (tabs g1) F)))
    as [el E].
  rewrite E.
  change (activation (set_focused (Some el) g1)) with (activation g1).
  destruct (activation g1).
  - destruct (setActiveTab_returns el smooth (set_focused (Some el) g1))
      as [g2 [es2 R]].
    rewrite R. eexists. eexists. reflexivity.
  - eexists. eexists. reflexivity.
Qed.

Lemma at_index_In {A : Type} (l : list A) (i : Z) (x : A) :
  at_index l i = Some x -> In x l.
Proof.
  unfold at_index. destruct (i <? 0)%Z; [discriminate|].
  apply nth_error_In.
Qed.

Lemma navigation_key_is_not_enter (k : string) :
  In k navigation_keys ->
  includes ["Enter"; " "] k = false
  /\ includes ["ArrowLeft"; "ArrowRight"; "ArrowUp"; "ArrowDown";
               "Home"; "End"] k = true.
Proof.
  intro K. cbn in K.
  destruct K as [K | [K | [K | [K | [K | [K | []]]]]]]; subst k;
    split; reflexivity.
Qed.

(** X2. With manual activation, a Home, End or arrow key pressed on a tab of
    the group while a cached tab has focus only moves focus: it focuses a
    cached tab, scrolls it into view for a horizontal placement and prevents
    the default action, and the group is otherwise as it was, with no tab or
    panel activated and no notification emitted. *)
Theorem X2_manual_activation_only_moves_focus
        (g : SlTabGroup) (event : Event) (tab f : ref) :
  closest_tab event = Some tab ->
  closest_group_is_this event = true ->
  In (key event) navigation_keys ->
  focused g = Some f ->
  In f (tabs g) ->
  is_sl_tab g f = true ->
  activation g = manual ->
  exists el,
    In el (tabs g)
    /\ handleKeyDown event g
       = Ok (set_focused (Some el) g,
             [focus el]
             ++ (if horizontal (placement g) then [scrollIntoView el None]
                 else [])
             ++ [preventDefault]).
Proof.
  intros T G K F I S M.
  destruct (navigation_key_is_not_enter _ K) as [Enter Nav].
  destruct (at_index_in_range (tabs g) _
              (next_index_in_range g (key event) _
                 (indexOf_in_range f (tabs g) I)))
    as [el E].
  exists el. split; [exact (at_index_In _ _ _ E)|].
  unfold handleKeyDown. rewrite T, G, Enter. cbn [negb JS.bind].
  rewrite Nav, F, (@find_focused f (tabs g) I), S, E.
  change (activation (set_focused (Some el) g)) with (activation g).
  rewrite M. reflexivity.
Qed.

Lemma X2_manual_activation_only_moves_focus_witness :
  exists el,
    In el (tabs (three_tabs_manual ltr start))
    /\ handleKeyDown (mkEvent "End" (Some 0) true)
                     (three_tabs_manual ltr start)
       = Ok (set_focused (Some el) (three_tabs_manual ltr start),
             [focus el; preventDefault]).
Proof.
  apply (X2_manual_activation_only_moves_focus
           (three_tabs_manual ltr start) (mkEvent "End" (Some 0) true) 0 0).
  - reflexivity.
  - reflexivity.
  - cbn. do 5 right. left. reflexivity.
  - reflexivity.
  - left. reflexivity.
  - reflexivity.
  - reflexivity.
Defined.

(** X3. A Home, End or arrow key does nothing at all, not even prevent the
    default action, when no tab of the cached list has focus, as when focus
    is on a disabled tab, which the cache leaves out. *)
Theorem X3_navigation_needs_a_focused_cached_tab
        (g : SlTabGroup) (event : Event) :
  In (key event) navigation_keys ->
  (forall f, focused g = Some f -> ~ In f (tabs g)) ->
  handleKeyDown event g = Ok (g, []).
Proof.
  intros K F.
  destruct (navigation_key_is_not_enter _ K) as [Enter Nav].
  unfold handleKeyDown.
  destruct (closest_tab event) as [tab|]; [|reflexivity].
  destruct (closest_group_is_this event); [|reflexivity].
  cbn [negb]. rewrite Enter. cbn [JS.bind]. rewrite Nav.
  rewrite find_absent; [reflexivity|].
  intros t Ht. destruct (focused g) as [f|]; [|reflexivity].
  destruct (Nat.eqb_spec t f) as [E|]; [|reflexivity].
  subst t. exfalso. exact (F f eq_refl Ht).
Qed.

Lemma X3_navigation_needs_a_focused_cached_tab_witness :
  handleKeyDown (mkEvent "ArrowRight" (Some 1) true)
                (set_focused (Some 1) (three_tabs ltr top))
  = Ok (set_focused (Some 1) (three_tabs ltr top), []).
Proof.
  apply (X3_navigation_needs_a_focused_cached_tab
           (set_focused (Some 1) (three_tabs ltr top))
           (mkEvent "ArrowRight" (Some 1) true)).
  - cbn. right. left. reflexivity.
  - intros f E. injection E as <-.
    intros [H | [H | []]]; discriminate H.
Defined.

(** X4. Enter or Space on a tab of the group does what a click on that tab
    does and then prevents the default action; focus is not moved. *)
Theorem X4_enter_and_space_activate_like_a_click
        (g : SlTabGroup) (event : Event) (tab : ref) :
  closest_tab event = Some tab ->
  closest_group_is_this event = true ->
  In (key event) ["Enter"; " "] ->
  handleKeyDown event g
  = ('(g', es) <- handleClick event g ;; Ok (g', es ++ [preventDefault])).
Proof.
  intros T G K. unfold handleKeyDown, handleClick. rewrite T, G.
  cbn [negb].
  assert (E : includes ["Enter"; " "] (key event) = true
              /\ includes ["ArrowLeft"; "ArrowRight"; "ArrowUp"; "ArrowDown";
                           "Home"; "End"] (key event) = false).
  { destruct K as [K | [K | []]]; rewrite <- K; split; reflexivity. }
  destruct E as [E1 E2]. rewrite E1.
  destruct (setActiveTab (Some tab) smooth g) as [[g1 es1]|m];
    cbn [JS.bind]; [rewrite E2|]; reflexivity.
Qed.

Lemma X4_enter_and_space_activate_like_a_click_witness :
  handleKeyDown (mkEvent " " (Some 2) true) (three_tabs ltr top)
  = ('(g', es) <- handleClick (mkEvent " " (Some 2) true)
                              (three_tabs ltr top) ;;
     Ok (g', es ++ [preventDefault])).
Proof.
  apply (X4_enter_and_space_activate_like_a_click
           (three_tabs ltr top) (mkEvent " " (Some 2) true) 2).
  - reflexivity.
  - reflexivity.
  - right. left. reflexivity.
Defined.

(** *** Activation *)

Lemma setActiveTab_written tab options g :
  changes_active_tab tab g = true ->
  exists es,
    setActiveTab (Some tab) options g = Ok (syncIndicator (written tab g), es).
Proof.
  intro G. unfold setActiveTab. rewrite G. eexists. reflexivity.
Qed.

Lemma setActiveTab_settles tab options options' g g1 es :
  setActiveTab (Some tab) options g = Ok (g1, es) ->
  setActiveTab (Some tab) options' g1 = Ok (g1, []).
Proof.
  intro R. apply setActiveTab_ignores.
  destruct (changes_active_tab tab g) eqn:G.
  - destruct (setActiveTab_changes tab options g G) as [g' [R' A]].
    rewrite R' in R. injection R as <- _.
    unfold changes_active_tab. rewrite (act_activeTab A), Nat.eqb_refl.
    reflexivity.
  - rewrite (setActiveTab_ignores tab options g G) in R.
    injection R as <- _. exact G.
Qed.

(** X5. [setActiveTab] is idempotent: once a call with a tab has returned, a
    second call with the same tab, whatever its options, changes nothing and
    has no effect. *)
Theorem X5_setActiveTab_again_does_nothing
        (g g1 : SlTabGroup) (tab : ref) (options options' : option Options)
        (es : list Effect) :
  setActiveTab (Some tab) options g = Ok (g1, es) ->
  setActiveTab (Some tab) options' g1 = Ok (g1, []).
Proof.
  exact (setActiveTab_settles tab options options' g g1 es).
Qed.

Lemma X5_setActiveTab_again_does_nothing_witness :
  setActiveTab (Some 2) None (third_shown ltr top)
  = Ok (third_shown ltr top, []).
Proof.
  apply (X5_setActiveTab_again_does_nothing
           (three_tabs ltr top) (third_shown ltr top) 2 None None
           [scrollIntoView 2 (Some behavior_auto); emit "sl-tab-show" "c"]).
  vm_compute. reflexivity.
Defined.

Lemma setActiveTab_keeps_keys tab options g g1 es :
  setActiveTab (Some tab) options g = Ok (g1, es) ->
  tabs g1 = tabs g
  /\ forall el, panel (tabHeap g1 el) = panel (tabHeap g el).
Proof.
  intro R. destruct (changes_active_tab tab g) eqn:G.
  - destruct (setActiveTab_changes tab options g G) as [g' [R' A]].
    rewrite R' in R. injection R as <- _. split; [exact (act_tabs A)|].
    intro el. rewrite (act_tabHeap A). apply assign_tabs_panel.
  - rewrite (setActiveTab_ignores tab options g G) in R.
    injection R as <- _. split; reflexivity.
Qed.

Lemma find_agree {A : Type} (f f' : A -> bool) (l : list A) :
  (forall x, In x l -> f x = f' x) -> find f l = find f' l.
Proof.
  induction l as [|x l IH]; intro H; [reflexivity|].
  cbn [find]. rewrite (H x (or_introl eq_refl)).
  rewrite IH; [reflexivity|]. intros y Hy. apply H. right. exact Hy.
Qed.

(** X6. [show(panel)] is idempotent: after it has returned, [show] with the
    same panel name changes nothing and has no effect, whether the first
    call activated a tab or not. *)
Theorem X6_show_again_does_nothing
        (g g1 : SlTabGroup) (panelName : string) (es : list Effect) :
  show panelName g = Ok (g1, es) ->
  show panelName g1 = Ok (g1, []).
Proof.
  unfold show. intro R.
  destruct (find (fun el => String.eqb (panel (tabHeap g el)) panelName)
                 (tabs g)) as [tab|] eqn:F.
  - destruct (setActiveTab_keeps_keys tab smooth g g1 es R) as [T P].
    rewrite T.
    rewrite (find_agree
               (fun el => String.eqb (panel (tabHeap g1 el)) panelName)
               (fun el => String.eqb (panel (tabHeap g el)) panelName)
               (tabs g) (fun el _ => f_equal (fun k => String.eqb k panelName)
                                             (P el))).
    rewrite F.
    exact (setActiveTab_settles tab smooth smooth g g1 es R).
  - injection R as <- _. rewrite F. reflexivity.
Qed.

Lemma X6_show_again_does_nothing_witness :
  show "c" (third_shown ltr top) = Ok (third_shown ltr top, []).
Proof.
  apply (X6_show_again_does_nothing
           (three_tabs ltr top) (third_shown ltr top) "c"
           [scrollIntoView 2 (Some behavior_smooth); emit "sl-tab-show" "c"]).
  vm_compute. reflexivity.
Defined.

(** X7. The options of [setActiveTab] bear on its effects only: with any two
    options the call leaves the group in the same state, or throws alike. *)
Theorem X7_options_do_not_change_the_state
        (g : SlTabGroup) (tab : option ref) (options options' : option Options) :
  outcome (setActiveTab tab options g) = outcome (setActiveTab tab options' g).
Proof.
  unfold setActiveTab. destruct tab as [tab|].
  - destruct (changes_active_tab tab g); reflexivity.
  - destruct (activeTab g); reflexivity.
Qed.

Lemma written_frame tab g :
  activeTab (written tab g) = Some tab
  /\ tabs (written tab g) = tabs g
  /\ navSlot (written tab g) = navSlot g
  /\ placement (written tab g) = placement g
  /\ dir (written tab g) = dir g
  /\ tabHeap (written tab g) = assign_tabs tab (tabs g) (tabHeap g).
Proof.
  repeat split.
Qed.

Lemma syncIndicator_hides g :
  getActiveTab g = None ->
  syncIndicator g = set_display display_none g.
Proof.
  intro A. unfold syncIndicator. rewrite A. reflexivity.
Qed.

(** X8. When [setActiveTab] activates a tab that is not in the cached list
    (a tab that is not slotted in the nav slot, or one added since the last
    [syncTabsAndPanels]), every cached tab ends up inactive, [activeTab]
    refers to the new tab, and the indicator is hidden. *)
Theorem X8_activating_an_uncached_tab_hides_the_indicator
        (g : SlTabGroup) (tab : ref) (options : option Options) :
  changes_active_tab tab g = true ->
  ~ In tab (tabs g) ->
  exists g' es,
    setActiveTab (Some tab) options g = Ok (g', es)
    /\ activeTab g' = Some tab
    /\ (forall el, In el (tabs g') -> active (tabHeap g' el) = false)
    /\ getActiveTab g' = None
    /\ display (indicator g') = display_none.
Proof.
  intros G N.
  destruct (setActiveTab_written tab options g G) as [es R].
  assert (Off : forall el, In el (tabs g) ->
                           active (tabHeap (written tab g) el) = false).
  { intros el I. destruct (written_frame tab g) as [_ [_ [_ [_ [_ H]]]]].
    rewrite H, (assign_tabs_active tab (tabs g) (tabHeap g) el I).
    apply Nat.eqb_neq. intro E. subst el. exact (N I). }
  assert (A : getActiveTab (written tab g) = None).
  { unfold getActiveTab. apply find_absent. exact Off. }
  exists (syncIndicator (written tab g)), es.
  split; [exact R|]. rewrite (syncIndicator_hides _ A).
  repeat split; try assumption.
Qed.

Lemma X8_activating_an_uncached_tab_hides_the_indicator_witness :
  exists g' es,
    setActiveTab (Some 7) None (third_shown ltr top) = Ok (g', es)
    /\ activeTab g' = Some 7
    /\ (forall el, In el (tabs g') -> active (tabHeap g' el) = false)
    /\ getActiveTab g' = None
    /\ display (indicator g') = display_none.
Proof.
  apply (X8_activating_an_uncached_tab_hides_the_indicator
           (third_shown ltr top) 7 None).
  - vm_compute. reflexivity.
  - vm_compute. intros [H | [H | []]]; discriminate H.
Defined.

(** *** The indicator after an activation *)

Lemma assign_tabs_keeps current l h r :
  tagName (assign_tabs current l h r) = tagName (h r)
  /\ clientWidth (assign_tabs current l h r) = clientWidth (h r)
  /\ clientHeight (assign_tabs current l h r) = clientHeight (h r)
  /\ disabled (assign_tabs current l h r) = disabled (h r).
Proof.
  rewrite assign_tabs_at. destruct (existsb (Nat.eqb r) l); repeat split.
Qed.

Lemma reposition_style g current preceding following :
  getActiveTab g = Some current ->
  getAllTabs true g = preceding ++ current :: following ->
  ~ In current preceding ->
  indicator (repositionIndicator g)
  = mkStyle (display (indicator g))
            (if horizontal (placement g) then px (extent g current)
             else length_auto)
            (if horizontal (placement g) then length_auto
             else px (extent g current))
            (translation g (if horizontal (placement g) && isRtl g
                            then (- sum_extents g preceding)%Z
                            else sum_extents g preceding)).
Proof.
  intros A D N.
  unfold repositionIndicator, translation, extent, sum_extents, extent.
  rewrite A, D, (indexOf_app_first current preceding following N),
    slice0_prefix, offset_sums.
  cbn [left top_].
  destruct (placement g) eqn:P; cbn [horizontal set_indicator indicator andb];
    try reflexivity;
    destruct (isRtl g); f_equal; f_equal; lia.
Qed.

Lemma sum_extents_agree g g' l :
  placement g' = placement g ->
  (forall el, clientWidth (tabHeap g' el) = clientWidth (tabHeap g el)) ->
  (forall el, clientHeight (tabHeap g' el) = clientHeight (tabHeap g el)) ->
  sum_extents g' l = sum_extents g l.
Proof.
  intros P W H. unfold sum_extents, extent. rewrite P.
  induction l as [|x l IH]; [reflexivity|].
  cbn [fold_right]. rewrite IH, W, H. reflexivity.
Qed.

(** X9. When [setActiveTab] activates a tab of the cached list, that tab is
    the one [getActiveTab] finds afterwards and the indicator is displayed,
    with the extent of the new tab along the axis of the placement and, if
    the tab is slotted, translated by the summed extents of the slotted tabs
    before it (with the opposite sign in right-to-left horizontal mode). *)
Theorem X9_activation_moves_the_indicator_to_the_tab
        (g : SlTabGroup) (tab : ref) (options : option Options)
        (preceding following : list ref) :
  changes_active_tab tab g = true ->
  In tab (tabs g) ->
  getAllTabs true g = preceding ++ tab :: following ->
  ~ In tab preceding ->
  exists g' es,
    setActiveTab (Some tab) options g = Ok (g', es)
    /\ getActiveTab g' = Some tab
    /\ display (indicator g') = display_block
    /\ indicator_extent g' = px (extent g tab)
    /\ transform (indicator g')
       = translation g (if horizontal (placement g) && isRtl g
                        then (- sum_extents g preceding)%Z
                        else sum_extents g preceding).
Proof.
  intros G I D N.
  destruct (setActiveTab_written tab options g G) as [es R].
  set (w := written tab g) in *.
  assert (Hw : forall el, tabHeap w el
                          = assign_tabs tab (tabs g) (tabHeap g) el)
    by reflexivity.
  assert (A : getActiveTab w = Some tab).
  { unfold getActiveTab.
    rewrite (find_agree (fun el => active (tabHeap w el))
                        (fun el => Nat.eqb el tab) (tabs w)).
    - apply (@find_focused tab (tabs g) I).
    - intros el Hel. rewrite Hw. apply assign_tabs_active. exact Hel. }
  set (b := set_display display_block w).
  assert (Ab : getActiveTab b = Some tab) by exact A.
  assert (Db : getAllTabs true b = preceding ++ tab :: following).
  { rewrite <- D. unfold getAllTabs. apply filter_ext. intro el.
    unfold is_sl_tab. change (tabHeap b el) with (tabHeap w el).
    rewrite Hw.
    destruct (assign_tabs_keeps tab (tabs g) (tabHeap g) el) as [T _].
    rewrite T. reflexivity. }
  assert (W : forall el, clientWidth (tabHeap b el)
                         = clientWidth (tabHeap g el)).
  { intro el. change (tabHeap b el) with (tabHeap w el). rewrite Hw.
    apply (assign_tabs_keeps tab (tabs g) (tabHeap g) el). }
  assert (H : forall el, clientHeight (tabHeap b el)
                         = clientHeight (tabHeap g el)).
  { intro el. change (tabHeap b el) with (tabHeap w el). rewrite Hw.
    apply (assign_tabs_keeps tab (tabs g) (tabHeap g) el). }
  assert (S : indicator (syncIndicator w)
              = indicator (repositionIndicator b)).
  { unfold syncIndicator. rewrite A. reflexivity. }
  pose proof (reposition_style b tab preceding following Ab Db N) as St.
  assert (E : extent b tab = extent g tab).
  { unfold extent. change (placement b) with (placement g).
    rewrite W, H. reflexivity. }
  rewrite E, (sum_extents_agree g b preceding eq_refl W H) in St.
  exists (syncIndicator w), es. split; [exact R|].
  split.
  { unfold getActiveTab. rewrite syncIndicator_frame. exact A. }
  unfold indicator_extent.
  replace (placement (syncIndicator w)) with (placement g)
    by (rewrite syncIndicator_frame; reflexivity).
  rewrite S, St.
  change (placement b) with (placement g).
  change (isRtl b) with (isRtl g).
  unfold translation. change (placement b) with (placement g).
  cbn [display width height transform].
  destruct (horizontal (placement g)); repeat split.
Qed.

Lemma X9_activation_moves_the_indicator_to_the_tab_witness :
  exists g' es,
    setActiveTab (Some 2) None (three_tabs rtl top) = Ok (g', es)
    /\ getActiveTab g' = Some 2
    /\ display (indicator g') = display_block
    /\ indicator_extent g' = px 60
    /\ transform (indicator g') = translateX (-90).
Proof.
  apply (X9_activation_moves_the_indicator_to_the_tab
           (three_tabs rtl top) 2 None [0; 1] []).
  - reflexivity.
  - right. left. reflexivity.
  - reflexivity.
  - intros [H | [H | []]]; discriminate H.
Defined.

(** X10. When the cached active tab is no longer among the slotted tabs (it
    was taken out of the nav slot and the cache has not been rebuilt),
    [indexOf] gives [-1] and [slice(0, -1)] keeps all slotted tabs but the
    last: [repositionIndicator] translates the indicator by the summed
    extents of all slotted tabs but the last one. *)
Theorem X10_stale_active_tab_offsets_by_all_but_last
        (g : SlTabGroup) (current : ref) :
  getActiveTab g = Some current ->
  ~ In current (getAllTabs true g) ->
  indicator_extent (repositionIndicator g) = px (extent g current)
  /\ transform (indicator (repositionIndicator g))
     = translation g
         (if horizontal (placement g) && isRtl g
          then (- sum_extents g (all_but_last (getAllTabs true g)))%Z
          else sum_extents g (all_but_last (getAllTabs true g))).
Proof.
  intros A N.
  unfold repositionIndicator, indicator_extent, translation, extent,
    sum_extents, extent.
  rewrite A, (indexOf_absent current _ N), slice0_minus_one, offset_sums.
  cbn [left top_].
  destruct (placement g) eqn:P; cbn [horizontal set_indicator placement
    indicator width height transform andb]; rewrite ?P;
    cbn [horizontal]; split; try reflexivity;
    destruct (isRtl g); f_equal; lia.
Qed.

Lemma X10_stale_active_tab_offsets_by_all_but_last_witness :
  indicator_extent (repositionIndicator (third_removed ltr top)) = px 60
  /\ transform (indicator (repositionIndicator (third_removed ltr top)))
     = translateX 40.
Proof.
  apply (X10_stale_active_tab_offsets_by_all_but_last
           (third_removed ltr top) 2).
  - reflexivity.
  - intros [H | [H | []]]; discriminate H.
Defined.

(** *** The first activation and the caches *)

Lemma syncTabsAndPanels_frame g :
  activeTab (syncTabsAndPanels g) = activeTab g
  /\ panelHeap (syncTabsAndPanels g) = panelHeap g
  /\ navSlot (syncTabsAndPanels g) = navSlot g
  /\ bodySlot (syncTabsAndPanels g) = bodySlot g
  /\ panels (syncTabsAndPanels g) = getAllPanels g
  /\ placement (syncTabsAndPanels g) = placement g.
Proof.
  unfold syncTabsAndPanels. rewrite syncIndicator_frame. repeat split.
Qed.

(** X11. The activation made when the group becomes visible throws exactly
    when the cached list is empty while [activeTab] is already set, as on a
    group that is connected again after its tabs were removed or disabled:
    [this.tabs[0]] is then [undefined] and [tab.disabled] is read from it.
    While [activeTab] is unset it does nothing for an empty list. *)
Theorem X11_first_activation_throws_only_without_tabs (g : SlTabGroup) :
  (exists m, initial_activation g = Throw m)
  <-> (tabs g = [] /\ activeTab g <> None).
Proof.
  unfold initial_activation, getActiveTab. split.
  - intros [m H]. destruct (tabs g) as [|x l] eqn:T.
    + cbn [find at_index Z.ltb Z.compare Z.to_nat nth_error] in H.
      cbn [setActiveTab] in H. split; [reflexivity|].
      destruct (activeTab g); [discriminate | discriminate H].
    + exfalso.
      assert (S : exists tab,
                 match find (fun el => active (tabHeap g el)) (x :: l) with
                 | Some tab => Some tab
                 | None => at_index (x :: l) 0
                 end = Some tab).
      { destruct (find _ (x :: l)) as [t|]; [exists t|exists x];
          reflexivity. }
      destruct S as [tab S]. rewrite S in H.
      destruct (setActiveTab_returns tab (Some (mkOptions (given false) absent))
                                     g) as [g' [es R]].
      rewrite R in H. discriminate H.
  - intros [T A]. rewrite T.
    cbn [find at_index Z.ltb Z.compare Z.to_nat nth_error setActiveTab].
    destruct (activeTab g); [|contradiction].
    exists TypeError. reflexivity.
Qed.

(** X12. On a group that has not been activated yet and has at least one
    slotted tab that is not disabled, [syncTabsAndPanels] followed by the
    activation made when the group becomes visible returns normally, emits no
    notification, makes [activeTab] the first cached tab marked active, or
    else the first cached tab, and leaves at most one cached tab active with
    the panels following it. *)
Theorem X12_first_activation_settles_the_group
        (g : SlTabGroup) (tab : ref) :
  activeTab g = None ->
  first_choice g (getAllTabs false g) = Some tab ->
  exists g' es,
    initial_activation (syncTabsAndPanels g) = Ok (g', es)
    /\ notifications es = []
    /\ activeTab g' = Some tab
    /\ In tab (tabs g')
    /\ single_active g' = true.
Proof.
  intros A C. set (s := syncTabsAndPanels g).
  assert (Ts : tabs s = getAllTabs false g) by apply syncTabsAndPanels_tabs.
  assert (Hs : tabHeap s = tabHeap g) by apply syncTabsAndPanels_tabHeap.
  assert (As : activeTab s = None).
  { unfold s. rewrite (proj1 (syncTabsAndPanels_frame g)). exact A. }
  assert (I : In tab (getAllTabs false g)).
  { unfold first_choice in C.
    destruct (find _ (getAllTabs false g)) as [t|] eqn:F.
    - injection C as <-. apply find_some in F. exact (proj1 F).
    - destruct (getAllTabs false g) as [|x l]; [discriminate C|].
      injection C as <-. left. reflexivity. }
  assert (Arg : match getActiveTab s with
                | Some t => Some t
                | None => at_index (tabs s) 0
                end = Some tab).
  { unfold getActiveTab. rewrite Ts, Hs. unfold first_choice in C.
    destruct (find _ (getAllTabs false g)); [exact C|].
    destruct (getAllTabs false g); [discriminate C | exact C]. }
  assert (G : changes_active_tab tab s = true).
  { unfold changes_active_tab. rewrite As, Hs. cbn [negb andb].
    unfold getAllTabs in I. apply filter_In in I. destruct I as [_ I].
    apply andb_prop in I. exact (proj2 I). }
  destruct (setActiveTab_changes tab (Some (mkOptions (given false) absent))
                                 s G) as [g' [R Act]].
  unfold initial_activation. rewrite Arg.
  eexists. eexists. split; [exact R|].
  split; [|split; [|split]].
  - cbn [merged_emitEvents emitEvents spread truthy].
    destruct (horizontal (placement s)); reflexivity.
  - exact (act_activeTab Act).
  - rewrite (act_tabs Act), Ts. exact I.
  - exact (activated_single_active Act).
Qed.

Lemma X12_first_activation_settles_the_group_witness :
  exists g' es,
    initial_activation (syncTabsAndPanels (three_tabs ltr start))
    = Ok (g', es)
    /\ notifications es = []
    /\ activeTab g' = Some 0
    /\ In 0 (tabs g')
    /\ single_active g' = true.
Proof.
  apply (X12_first_activation_settles_the_group (three_tabs ltr start) 0);
    reflexivity.
Defined.

Lemma set_caches_again g :
  set_panels (panels g) (set_tabs (tabs g) g) = g.
Proof.
  destruct g. reflexivity.
Qed.

Lemma syncIndicator_idempotent g :
  syncIndicator (syncIndicator g) = syncIndicator g.
Proof.
  destruct g as [th ph ns bs fo di at_ ts ps pl ac st].
  unfold syncIndicator, repositionIndicator, getActiveTab, set_display,
    set_indicator.
  cbn [tabs tabHeap indicator placement display width height transform
       panelHeap navSlot bodySlot focused dir activeTab panels activation].
  destruct (find (fun el => active (th el)) ts) as [t|] eqn:F;
    cbn [tabs tabHeap indicator placement display width height transform
         panelHeap navSlot bodySlot focused dir activeTab panels activation];
    [|rewrite F; reflexivity].
  destruct pl;
    cbn [tabs tabHeap indicator placement display width height transform
         panelHeap navSlot bodySlot focused dir activeTab panels activation];
    rewrite F;
    cbn [tabs tabHeap indicator placement display width height transform
         panelHeap navSlot bodySlot focused dir activeTab panels activation];
    reflexivity.
Qed.

(** X13. [syncTabsAndPanels] is idempotent: rebuilding the caches and the
    indicator a second time, with the document unchanged, gives the same
    group. *)
Theorem X13_syncTabsAndPanels_is_idempotent (g : SlTabGroup) :
  syncTabsAndPanels (syncTabsAndPanels g) = syncTabsAndPanels g.
Proof.
  set (s := syncTabsAndPanels g).
  assert (T : getAllTabs false s = tabs s).
  { unfold s. rewrite syncTabsAndPanels_tabs. unfold getAllTabs, is_sl_tab.
    rewrite syncTabsAndPanels_tabHeap.
    rewrite (proj1 (proj2 (proj2 (syncTabsAndPanels_frame g)))).
    reflexivity. }
  assert (P : getAllPanels (set_tabs (tabs s) s) = panels s).
  { unfold s.
    destruct (syncTabsAndPanels_frame g) as [_ [Hp [_ [Hb [Pp _]]]]].
    rewrite Pp. unfold getAllPanels, is_sl_tab_panel.
    cbn [set_tabs panelHeap bodySlot]. rewrite Hp, Hb. reflexivity. }
  unfold syncTabsAndPanels at 1. rewrite T, P, set_caches_again.
  unfold s, syncTabsAndPanels. apply syncIndicator_idempotent.
Qed.

(** *** Labels and mutations *)

Lemma setAriaLabels_attributes g l a ms :
  fst (fold_left
         (fun acc tab =>
            match panel_of g tab with
            | Some panel_ =>
                (link tab panel_ (fst acc),
                 snd acc ++ [mkMutation (Some "aria-controls");
                             mkMutation (Some "aria-labelledby")])
            | None => acc
            end) l (a, ms))
  = fold_left (relabel g) l a.
Proof.
  revert a ms. induction l as [|x l IH]; intros a ms; [reflexivity|].
  cbn [fold_left]. unfold relabel at 2.
  destruct (panel_of g x); [apply IH|].
  cbn [fst]. apply IH.
Qed.

Lemma setAriaLabels_mutations g l a ms :
  Forall (fun m => attributeName m = Some "aria-controls"
                   \/ attributeName m = Some "aria-labelledby") ms ->
  Forall (fun m => attributeName m = Some "aria-controls"
                   \/ attributeName m = Some "aria-labelledby")
         (snd (fold_left
                 (fun acc tab =>
                    match panel_of g tab with
                    | Some panel_ =>
                        (link tab panel_ (fst acc),
                         snd acc ++ [mkMutation (Some "aria-controls");
                                     mkMutation (Some "aria-labelledby")])
                    | None => acc
                    end) l (a, ms))).
Proof.
  revert a ms. induction l as [|x l IH]; intros a ms H; [exact H|].
  cbn [fold_left]. destruct (panel_of g x); [|apply IH; exact H].
  apply IH. cbn [snd]. apply Forall_app. split; [exact H|].
  apply Forall_cons; [left; reflexivity|].
  apply Forall_cons; [right; reflexivity|].
  apply Forall_nil.
Qed.

Lemma own_mutations_are_quiet (ms : list MutationRecord) :
  Forall (fun m => attributeName m = Some "aria-controls"
                   \/ attributeName m = Some "aria-labelledby") ms ->
  existsb (fun m =>
             negb (match attributeName m with
                   | Some n => includes ["aria-labelledby"; "aria-controls"] n
                   | None => false
                   end)) ms = false
  /\ existsb (fun m => match attributeName m with
                       | Some n => String.eqb n "disabled"
                       | None => false
                       end) ms = false.
Proof.
  induction 1 as [|m ms Hm _ [IH1 IH2]]; [split; reflexivity|].
  cbn [existsb]. rewrite IH1, IH2.
  destruct Hm as [Hm | Hm]; rewrite Hm; split; reflexivity.
Qed.

(** X14. The attribute mutations that [setAriaLabels] causes do not start it
    again: a batch made of them alone makes the observer's callback neither
    schedule [setAriaLabels] nor rebuild the caches. *)
Theorem X14_labelling_does_not_retrigger_itself
        (g g' : SlTabGroup) (a : Attributes) :
  mutation_callback (snd (setAriaLabels g a)) g' = (g', false).
Proof.
  pose proof (setAriaLabels_mutations g (tabs g) a [] (Forall_nil _)) as H.
  fold (setAriaLabels g a) in H.
  destruct (own_mutations_are_quiet _ H) as [Q1 Q2].
  unfold mutation_callback. rewrite Q1, Q2. reflexivity.
Qed.

Lemma relabel_ids g a tab :
  tab_id (relabel g a tab) = tab_id a
  /\ panel_id (relabel g a tab) = panel_id a.
Proof.
  unfold relabel. destruct (panel_of g tab); split; reflexivity.
Qed.

Lemma relabelled_ids g l a :
  tab_id (fold_left (relabel g) l a) = tab_id a
  /\ panel_id (fold_left (relabel g) l a) = panel_id a.
Proof.
  revert a. induction l as [|x l IH]; intro a; [split; reflexivity|].
  cbn [fold_left]. destruct (IH (relabel g a x)) as [A B].
  destruct (relabel_ids g a x) as [C D].
  rewrite A, B, C, D. split; reflexivity.
Qed.

Lemma relabelled_controls_elsewhere g l a tab :
  ~ In tab l ->
  aria_controls (fold_left (relabel g) l a) tab = aria_controls a tab.
Proof.
  revert a. induction l as [|x l IH]; intros a N; [reflexivity|].
  cbn [fold_left]. rewrite IH by (intro K; apply N; right; exact K).
  unfold relabel. destruct (panel_of g x); [|reflexivity].
  unfold link, update. cbn [aria_controls].
  destruct (Nat.eqb_spec tab x) as [E|E]; [|reflexivity].
  exfalso. apply N. left. symmetry. exact E.
Qed.

Lemma relabelled_labelledby_elsewhere g l a p :
  (forall t, In t l -> panel_of g t <> Some p) ->
  aria_labelledby (fold_left (relabel g) l a) p = aria_labelledby a p.
Proof.
  revert a. induction l as [|x l IH]; intros a N; [reflexivity|].
  cbn [fold_left]. rewrite IH by (intros t K; apply N; right; exact K).
  unfold relabel. destruct (panel_of g x) as [q|] eqn:Q; [|reflexivity].
  unfold link, update. cbn [aria_labelledby].
  destruct (Nat.eqb_spec p q) as [E|E]; [|reflexivity].
  exfalso. apply (N x (or_introl eq_refl)). rewrite Q, E. reflexivity.
Qed.

(** X15. After [setAriaLabels], every cached tab whose panel key names a
    cached panel has [aria-controls] set to the [id] of the first cached
    panel of that name, or to the text [null] when that panel has no [id]. *)
Theorem X15_tabs_control_their_first_panel
        (g : SlTabGroup) (a : Attributes) (tab p : ref) :
  In tab (tabs g) ->
  panel_of g tab = Some p ->
  aria_controls (fst (setAriaLabels g a)) tab
  = Some (stringified (panel_id a p)).
Proof.
  unfold setAriaLabels. rewrite setAriaLabels_attributes.
  generalize (tabs g). intro l. revert a.
  induction l as [|x l IH]; intros a I P; [contradiction|].
  cbn [fold_left].
  destruct (in_dec Nat.eq_dec tab l) as [Il | Nl].
  - rewrite (IH (relabel g a x) Il P).
    rewrite (proj2 (relabel_ids g a x)). reflexivity.
  - destruct I as [E | I]; [subst x | contradiction].
    rewrite (relabelled_controls_elsewhere g l _ tab Nl).
    unfold relabel. rewrite P. unfold link, update. cbn [aria_controls].
    rewrite Nat.eqb_refl. reflexivity.
Qed.

Lemma X15_tabs_control_their_first_panel_witness :
  aria_controls (fst (setAriaLabels (three_tabs ltr top) sample_attributes)) 2
  = Some "null"
  /\ aria_controls (fst (setAriaLabels (three_tabs ltr top) sample_attributes))
                   0
     = Some "panel-a".
Proof.
  split.
  - apply (X15_tabs_control_their_first_panel
             (three_tabs ltr top) sample_attributes 2 2).
    + right. left. reflexivity.
    + reflexivity.
  - apply (X15_tabs_control_their_first_panel
             (three_tabs ltr top) sample_attributes 0 0).
    + left. reflexivity.
    + reflexivity.
Defined.

(** X16. After [setAriaLabels], a cached panel is labelled by the last
    cached tab that resolves to it: when several tabs share a panel key the
    later one overwrites [aria-labelledby], and a panel to which no cached
    tab resolves, such as a second panel of the same name, keeps the
    attribute it had. *)
Theorem X16_panels_are_labelled_by_their_last_tab
        (g : SlTabGroup) (a : Attributes) (p : ref) :
  (forall before tab after,
      tabs g = before ++ tab :: after ->
      panel_of g tab = Some p ->
      (forall t, In t after -> panel_of g t <> Some p) ->
      aria_labelledby (fst (setAriaLabels g a)) p
      = Some (stringified (tab_id a tab)))
  /\ ((forall t, In t (tabs g) -> panel_of g t <> Some p) ->
      aria_labelledby (fst (setAriaLabels g a)) p = aria_labelledby a p).
Proof.
  unfold setAriaLabels. rewrite setAriaLabels_attributes. split.
  - intros before tab after T P N. rewrite T, fold_left_app.
    cbn [fold_left].
    rewrite (relabelled_labelledby_elsewhere g after _ p N).
    unfold relabel at 1. rewrite P. unfold link, update.
    cbn [aria_labelledby tab_id]. rewrite Nat.eqb_refl.
    rewrite (proj1 (relabelled_ids g before a)). reflexivity.
  - intro N. exact (relabelled_labelledby_elsewhere g (tabs g) a p N).
Qed.

Lemma X16_panels_are_labelled_by_their_last_tab_witness :
  aria_labelledby (fst (setAriaLabels (three_tabs ltr top) sample_attributes))
                  0
  = Some "tab-a"
  /\ aria_labelledby
       (fst (setAriaLabels (three_tabs ltr top) sample_attributes)) 1
     = None.
Proof.
  destruct (X16_panels_are_labelled_by_their_last_tab
              (three_tabs ltr top) sample_attributes 0) as [H _].
  destruct (X16_panels_are_labelled_by_their_last_tab
              (three_tabs ltr top) sample_attributes 1) as [_ K].
  split.
  - apply (H [] 0 [2]).
    + reflexivity.
    + reflexivity.
    + intros t [E | []]. subst t. discriminate.
  - apply K. intros t [E | [E | []]]; subst t; discriminate.
Defined.

(** X17. When a batch of mutations contains a change of a [disabled]
    attribute, the observer's callback rebuilds the caches at once and
    schedules [setAriaLabels]; the cached list then holds no disabled
    tab. *)
Theorem X17_disabled_mutation_rebuilds_the_caches
        (g : SlTabGroup) (mutations : list MutationRecord) :
  In (mkMutation (Some "disabled")) mutations ->
  mutation_callback mutations g = (syncTabsAndPanels g, true)
  /\ (forall el, In el (tabs (fst (mutation_callback mutations g))) ->
                disabled (tabHeap g el) = false).
Proof.
  intro I.
  assert (E : mutation_callback mutations g = (syncTabsAndPanels g, true)).
  { unfold mutation_callback.
    assert (A : existsb (fun m => match attributeName m with
                                  | Some n => String.eqb n "disabled"
                                  | None => false
                                  end) mutations = true).
    { apply existsb_exists. eexists. split; [exact I | reflexivity]. }
    assert (B : existsb
                  (fun m =>
                     negb (match attributeName m with
                           | Some n =>
                               includes ["aria-labelledby"; "aria-controls"] n
                           | None => false
                           end)) mutations = true).
    { apply existsb_exists. eexists. split; [exact I | reflexivity]. }
    rewrite A, B. reflexivity. }
  split; [exact E|]. rewrite E. cbn [fst]. intros el Hel.
  rewrite syncTabsAndPanels_tabs in Hel. unfold getAllTabs in Hel.
  apply filter_In in Hel. destruct Hel as [_ Hel].
  apply andb_prop in Hel. apply negb_true_iff. exact (proj2 Hel).
Qed.

Lemma X17_disabled_mutation_rebuilds_the_caches_witness :
  mutation_callback [mkMutation None; mkMutation (Some "disabled")]
                    (three_tabs ltr top)
  = (syncTabsAndPanels (three_tabs ltr top), true)
  /\ (forall el,
        In el (tabs (fst (mutation_callback
                            [mkMutation None; mkMutation (Some "disabled")]
                            (three_tabs ltr top)))) ->
        disabled (tabHeap (three_tabs ltr top) el) = false).
Proof.
  apply (X17_disabled_mutation_rebuilds_the_caches
           (three_tabs ltr top)
           [mkMutation None; mkMutation (Some "disabled")]).
  right. left. reflexivity.
Defined.

(** *** The transition of the indicator *)

Lemma resized_callbacks (n : nat) (s : Transition) :
  transition (resized (S n) s) = "none"
  /\ frame_callbacks (resized (S n) s)
     = frame_callbacks s ++ transition s :: repeat "none" n.
Proof.
  induction n as [|n [IH1 IH2]].
  - split; reflexivity.
  - split; [reflexivity|].
    change (resized (S (S n)) s)
      with (preventIndicatorTransition (resized (S n) s)).
    unfold preventIndicatorTransition. cbn [frame_callbacks].
    rewrite IH1, IH2, <- app_assoc. cbn [app]. f_equal. f_equal.
    clear. induction n as [|n IH]; [reflexivity|].
    cbn [repeat app]. f_equal. exact IH.
Qed.

Lemma last_write (n : nat) (x : string) :
  fold_left (fun _ v => v) (repeat "none" n) x
  = if Nat.eqb n 0 then x else "none".
Proof.
  revert x. induction n as [|n IH]; intro x; [reflexivity|].
  cbn [repeat fold_left Nat.eqb]. rewrite IH. destruct n; reflexivity.
Qed.

(** X18. [preventIndicatorTransition] gives the indicator its transition
    back on the next animation frame only if it is called once before that
    frame: with no callback pending, one call followed by the frame restores
    the transition, while after two or more calls the later callbacks write
    back the [none] they saved, and the transition stays [none]. *)
Theorem X18_transition_is_restored_after_a_single_call
        (s : Transition) (n : nat) :
  frame_callbacks s = [] ->
  animation_frame (resized (S n) s)
  = mkTransition (if Nat.eqb n 0 then transition s else "none") [].
Proof.
  intro E. unfold animation_frame.
  destruct (resized_callbacks n s) as [T C]. rewrite T, C, E.
  cbn [app fold_left]. rewrite last_write. reflexivity.
Qed.

Lemma X18_transition_is_restored_after_a_single_call_witness :
  animation_frame (resized 1 (mkTransition "transform 1s" []))
  = mkTransition "transform 1s" []
  /\ animation_frame (resized 2 (mkTransition "transform 1s" []))
     = mkTransition "none" [].
Proof.
  split.
  - apply (X18_transition_is_restored_after_a_single_call
             (mkTransition "transform 1s" []) 0). reflexivity.
  - apply (X18_transition_is_restored_after_a_single_call
             (mkTransition "transform 1s" []) 1). reflexivity.
Defined.

End TabGroupRestFacts.

(** ** Further facts about the tooltip *)

Module TooltipRestFacts.
Import Tooltip TooltipRest TooltipFacts.

Unset Implicit Arguments.

(** *** Triggers *)

Lemma split_space_nonempty (s : string) : split_space s <> [].
Proof.
  destruct s as [|c r]; cbn [split_space]; [discriminate|].
  destruct (Ascii.eqb c " "); [discriminate|].
  destruct (split_space r); discriminate.
Qed.

Lemma split_space_joined (a b : string) :
  split_space (append a (String " " b)) = split_space a ++ split_space b.
Proof.
  induction a as [|c r IH]; [reflexivity|].
  cbn [append split_space]. rewrite IH.
  destruct (Ascii.eqb c " "); [reflexivity|].
  destruct (split_space r) as [|w ws] eqn:E; [|reflexivity].
  exfalso. exact (split_space_nonempty r E).
Qed.

(** X19. [hasTrigger] looks for a whole word of the space-separated list: for
    two lists joined by a space it holds exactly when it holds for one of
    them, whatever the word asked for. *)
Theorem X19_hasTrigger_of_joined_lists (a b triggerType : string) :
  hasTrigger (append a (String " " b)) triggerType
  = hasTrigger a triggerType || hasTrigger b triggerType.
Proof.
  unfold hasTrigger, includes. rewrite split_space_joined.
  apply existsb_app.
Qed.

Lemma dispatch_keeps_trigger (h : Host) (e : DomEvent) :
  trigger (dispatch h e) = trigger h.
Proof.
  destruct e; unfold dispatch, handleBlur, handleClick, handleFocus,
    handleKeyDown, handleMouseOver, handleMouseOut, timeout, reschedule,
    set_tooltip.
  - destruct (hasTrigger _ _); reflexivity.
  - destruct (hasTrigger _ _); [destruct (open _)|]; reflexivity.
  - destruct (hasTrigger _ _); reflexivity.
  - destruct (_ && _); reflexivity.
  - destruct (hasTrigger _ _); reflexivity.
  - destruct (hasTrigger _ _); reflexivity.
  - destruct (find _ _) as [t|]; [destruct (callback t)|]; reflexivity.
Qed.

(** X20. A tooltip whose trigger list has none of [hover], [focus] and
    [click], such as [manual], is left exactly as it is by any sequence of
    mouse-over, mouse-out, focus, blur and click events; with no timer
    pending nothing can go off later either. *)
Theorem X20_untriggered_events_change_nothing
        (h : Host) (events : list DomEvent) :
  hasTrigger (trigger h) "hover" = false ->
  hasTrigger (trigger h) "focus" = false ->
  hasTrigger (trigger h) "click" = false ->
  timers h = [] ->
  forallb (fun e => negb (is_keydown e)) events = true ->
  fold_left dispatch events h = h.
Proof.
  intros Hh Hf Hc Ht. induction events as [|e es IH]; intro K;
    [reflexivity|].
  cbn [forallb] in K. apply andb_prop in K. destruct K as [K1 K2].
  cbn [fold_left].
  assert (E : dispatch h e = h).
  { destruct e; try discriminate K1;
      unfold dispatch, handleBlur, handleClick, handleFocus,
        handleMouseOver, handleMouseOut, timeout;
      rewrite ?Hh, ?Hf, ?Hc, ?Ht; reflexivity. }
  rewrite E. exact (IH K2).
Qed.

Lemma X20_untriggered_events_change_nothing_witness :
  fold_left dispatch [mouseover 100; click; focus; timer_fires 0; mouseout 0;
                      blur] manual_host
  = manual_host.
Proof.
  apply (X20_untriggered_events_change_nothing manual_host); reflexivity.
Defined.

(** *** The hover timer *)

Lemma reschedule_debounces (c : Scheduled) (d : Z) (h : Host) :
  debounced h ->
  timers (reschedule c d h) = [mkTimer (next_timer h) c d]
  /\ hoverTimeout (reschedule c d h) = Some (next_timer h).
Proof.
  unfold debounced, reschedule. cbn [timers hoverTimeout].
  destruct (timers h) as [|t [|t' l]]; intro D.
  - destruct (hoverTimeout h); split; reflexivity.
  - rewrite D. cbn [clearTimeout filter]. rewrite Nat.eqb_refl.
    split; reflexivity.
  - contradiction.
Qed.

Lemma dispatch_debounced (h : Host) (e : DomEvent) :
  debounced h -> debounced (dispatch h e).
Proof.
  intro D.
  destruct e; unfold dispatch, handleBlur, handleClick, handleFocus,
    handleKeyDown, handleMouseOver, handleMouseOut.
  - destruct (hasTrigger _ _); exact D.
  - destruct (hasTrigger _ _); [destruct (open _)|]; exact D.
  - destruct (hasTrigger _ _); exact D.
  - destruct (_ && _); exact D.
  - destruct (hasTrigger _ _); [|exact D].
    destruct (reschedule_debounces scheduled_show delay_ h D) as [T H].
    unfold debounced. rewrite T, H. reflexivity.
  - destruct (hasTrigger _ _); [|exact D].
    destruct (reschedule_debounces scheduled_hide delay_ h D) as [T H].
    unfold debounced. rewrite T, H. reflexivity.
  - destruct h as [tt tr ho ti nx]. unfold timeout, debounced in *.
    cbn [timers hoverTimeout tooltip trigger next_timer] in *.
    destruct ti as [|t [|t' l]]; [exact D| |contradiction].
    cbn [find filter]. destruct (Nat.eqb (handle t) handle_).
    + destruct (callback t); exact I.
    + exact D.
Qed.

Lemma dispatched_debounced (h : Host) (events : list DomEvent) :
  debounced h ->
  debounced (fold_left dispatch events h)
  /\ trigger (fold_left dispatch events h) = trigger h.
Proof.
  revert h. induction events as [|e es IH]; intros h D; [split; trivial|].
  cbn [fold_left].
  destruct (IH (dispatch h e) (dispatch_debounced h e D)) as [A B].
  split; [exact A|]. rewrite B. apply dispatch_keeps_trigger.
Qed.

(** X21. With [hover] among the triggers, the hover timer is debounced: if
    at most one timer is pending, the one [hoverTimeout] names, then after
    any sequence of events this is still so, and a mouse-over or mouse-out
    that follows leaves exactly one timer pending, its own, with its delay:
    the last hover event decides between [show()] and [hide()]. *)
Theorem X21_the_last_hover_event_wins
        (h : Host) (events : list DomEvent) (d : Z) :
  debounced h ->
  hasTrigger (trigger h) "hover" = true ->
  debounced (fold_left dispatch events h)
  /\ timers (handleMouseOver d (fold_left dispatch events h))
     = [mkTimer (next_timer (fold_left dispatch events h)) scheduled_show d]
  /\ timers (handleMouseOut d (fold_left dispatch events h))
     = [mkTimer (next_timer (fold_left dispatch events h)) scheduled_hide d].
Proof.
  intros D H.
  destruct (dispatched_debounced h events D) as [A B].
  split; [exact A|].
  unfold handleMouseOver, handleMouseOut. rewrite B, H.
  split; apply reschedule_debounces; exact A.
Qed.

Lemma X21_the_last_hover_event_wins_witness :
  debounced (fold_left dispatch [mouseover 150; mouseout 0; mouseover 150]
                       default_host)
  /\ timers (handleMouseOut 0
              (fold_left dispatch [mouseover 150; mouseout 0; mouseover 150]
                         default_host))
     = [mkTimer 3 scheduled_hide 0].
Proof.
  destruct (X21_the_last_hover_event_wins
              default_host [mouseover 150; mouseout 0; mouseover 150] 0 I
              eq_refl) as [A [_ B]].
  split; [exact A | exact B].
Defined.

Lemma show_opens (t : SlTooltip) : open (snd (show t)) = true.
Proof.
  destruct t as [o d bh pa an na ls st nd ch su hi].
  destruct o; reflexivity.
Qed.

Lemma hide_closes (t : SlTooltip) : open (snd (hide t)) = false.
Proof.
  destruct t as [o d bh pa an na ls st nd ch su hi].
  destruct o; reflexivity.
Qed.

(** X22. With [click] among the triggers a click toggles [open]: it calls
    [hide()] on an open tooltip and [show()] on a closed one, so that [open]
    is negated by one click and back to its value after two. *)
Theorem X22_click_toggles_open (h : Host) :
  hasTrigger (trigger h) "click" = true ->
  open (tooltip (handleClick h)) = negb (open (tooltip h))
  /\ open (tooltip (handleClick (handleClick h))) = open (tooltip h).
Proof.
  intro C.
  assert (One : forall k, hasTrigger (trigger k) "click" = true ->
                          open (tooltip (handleClick k))
                          = negb (open (tooltip k))
                          /\ trigger (handleClick k) = trigger k).
  { intros k Ck. unfold handleClick. rewrite Ck.
    destruct (open (tooltip k)) eqn:O; cbn [set_tooltip tooltip trigger negb].
    - split; [apply hide_closes | reflexivity].
    - split; [apply show_opens | reflexivity]. }
  destruct (One h C) as [A T]. split; [exact A|].
  rewrite <- T in C. destruct (One (handleClick h) C) as [B _].
  rewrite B, A. apply negb_involutive.
Qed.

Lemma X22_click_toggles_open_witness :
  open (tooltip (handleClick click_host)) = true
  /\ open (tooltip (handleClick (handleClick click_host))) = false.
Proof.
  apply (X22_click_toggles_open click_host). reflexivity.
Defined.

(** *** The target *)

Lemma find_first {A : Type} (f : A -> bool) (l : list A) :
  match find f l with
  | Some x =>
      exists before after,
        l = before ++ x :: after
        /\ forallb (fun y => negb (f y)) before = true /\ f x = true
  | None => forallb (fun y => negb (f y)) l = true
  end.
Proof.
  induction l as [|y l IH]; [reflexivity|].
  cbn [find]. destruct (f y) eqn:E.
  - exists [], l. repeat split. exact E.
  - destruct (find f l) as [x|].
    + destruct IH as [before [after [L [B X]]]].
      exists (y :: before), after. rewrite L. repeat split.
      * cbn [forallb]. rewrite E, B. reflexivity.
      * exact X.
    + cbn [forallb]. rewrite E, IH. reflexivity.
Qed.

(** X23. [getTarget] returns the first child that is neither a [style]
    element, in any letter case, nor assigned to the [content] slot, and
    every child before it is one of these; it throws exactly when all
    children are, and so for a tooltip without children. *)
Theorem X23_getTarget_is_the_first_eligible_child (children : list Child) :
  match getTarget children with
  | Ok target_ =>
      exists before after,
        children = before ++ target_ :: after
        /\ forallb (fun el => negb (may_be_target el)) before = true
        /\ may_be_target target_ = true
  | Throw _ => forallb (fun el => negb (may_be_target el)) children = true
  end.
Proof.
  unfold getTarget. pose proof (find_first may_be_target children) as H.
  destruct (find may_be_target children); exact H.
Qed.

(** *** One call at a time *)

Lemma run_forced (s s' : SlTooltip) (schedule : list Action) (t' : SlTooltip) :
  quiescent s = false ->
  (forall a x, step a s = Some x -> x = s') ->
  run schedule s = Some t' -> quiescent t' = true ->
  exists rest, run rest s' = Some t'.
Proof.
  intros Q F R Q'. destruct schedule as [|a rest].
  - injection R as <-. rewrite Q in Q'. discriminate Q'.
  - cbn [run] in R. destruct (step a s) as [x|] eqn:S; [|discriminate R].
    rewrite (F a x S) in R. exists rest. exact R.
Qed.

Lemma run_stuck (s : SlTooltip) (schedule : list Action) (t' : SlTooltip) :
  (forall a, step a s = None) ->
  run schedule s = Some t' -> t' = s.
Proof.
  intros F R. destruct schedule as [|a rest].
  - injection R as <-. reflexivity.
  - cbn [run] in R. rewrite (F a) in R. discriminate R.
Qed.

(** A step of the loop, computed on a tooltip given by its fields. *)
Ltac compute_step :=
  cbv [step handleOpenChange handleDisabledChange continue hide show
       write_open write_disabled waitForEvent emit stopAnimations animateTo
       suspend record set_open set_disabled set_body_hidden set_popup_active
       set_animations set_deferreds set_changed set_suspended
       completed in_flight remove_nth nth_error existsb
       open disabled body_hidden popup_active animations next_animation
       listeners settled next_deferred changed suspended history
       animation_id target animation_name] in *;
  cbn [fst snd Bool.eqb negb andb orb filter map app element_eqb] in *.

(** The state admits one step only, whichever action is tried. *)
Ltac only_step na :=
  let a := fresh "a" in
  let x := fresh "x" in
  let H := fresh "H" in
  let E := fresh "E" in
  intros a x H; destruct a as [|[|[|i]]|id]; compute_step;
  rewrite ?Nat.eqb_refl in H; cbn [negb orb] in H;
  try discriminate H;
  try (destruct i; discriminate H);
  try (injection H as <-; reflexivity);
  try (destruct (Nat.eqb_spec na id) as [E|E];
       [ subst id; rewrite ?Nat.eqb_refl in H;
         cbn [negb orb filter map] in H;
         rewrite ?Nat.eqb_refl in H; cbn [negb orb filter map] in H;
         injection H as <-; reflexivity
       | discriminate H ]).

Ltac no_step :=
  let a := fresh "a" in
  intro a; destruct a as [|[|i]|id]; reflexivity.

Lemma show_course (bh pa : bool) (na : nat) (ls : list (nat * Notification))
      (st : list nat) (nd : nat) (hi : list Effect)
      (schedule : list Action) (t' : SlTooltip) :
  run schedule
      (snd (show (mkTooltip false false bh pa [] na ls st nd [] [] hi)))
  = Some t' ->
  quiescent t' = true ->
  open t' = true /\ disabled t' = false
  /\ body_hidden t' = false /\ popup_active t' = true
  /\ animations t' = []
  /\ history t'
     = hi ++ [emitted sl_show;
              started (mkAnimation na popup_popup tooltip_show);
              finished (mkAnimation na popup_popup tooltip_show);
              emitted sl_after_show].
Proof.
  intros R Q.
  eapply run_forced in R; [| reflexivity | only_step na | exact Q].
  destruct R as [r1 R].
  eapply run_forced in R; [| reflexivity | only_step na | exact Q].
  destruct R as [r2 R].
  eapply run_forced in R; [| reflexivity | only_step na | exact Q].
  destruct R as [r3 R].
  eapply run_forced in R; [| reflexivity | only_step na | exact Q].
  destruct R as [r4 R].
  apply run_stuck in R; [|no_step]. subst t'.
  cbn [open disabled body_hidden popup_active animations history].
  repeat split. rewrite app_nil_r, <- !app_assoc. reflexivity.
Qed.

Lemma hide_course (d bh pa : bool) (na : nat) (ls : list (nat * Notification))
      (st : list nat) (nd : nat) (hi : list Effect)
      (schedule : list Action) (t' : SlTooltip) :
  run schedule
      (snd (hide (mkTooltip true d bh pa [] na ls st nd [] [] hi)))
  = Some t' ->
  quiescent t' = true ->
  open t' = false /\ disabled t' = d
  /\ body_hidden t' = true /\ popup_active t' = false
  /\ animations t' = []
  /\ history t'
     = hi ++ [emitted sl_hide;
              started (mkAnimation na popup_popup tooltip_hide);
              finished (mkAnimation na popup_popup tooltip_hide);
              emitted sl_after_hide].
Proof.
  intros R Q.
  eapply run_forced in R; [| reflexivity | only_step na | exact Q].
  destruct R as [r1 R].
  eapply run_forced in R; [| reflexivity | only_step na | exact Q].
  destruct R as [r2 R].
  eapply run_forced in R; [| reflexivity | only_step na | exact Q].
  destruct R as [r3 R].
  eapply run_forced in R; [| reflexivity | only_step na | exact Q].
  destruct R as [r4 R].
  apply run_stuck in R; [|no_step]. subst t'.
  cbn [open disabled body_hidden popup_active animations history].
  repeat split. rewrite app_nil_r, <- !app_assoc. reflexivity.
Qed.

(** X24. [show()] on a closed, enabled tooltip at rest runs one course,
    whatever the order in which the loop is driven: sl-show, the show
    animation on [popup.popup] from start to end, sl-after-show, and nothing
    else; at the end the tooltip is open, its body is not hidden, the popup
    is active and no animation is left. *)
Theorem X24_show_runs_its_course (t : SlTooltip) :
  open t = false -> disabled t = false ->
  changed t = [] -> suspended t = [] -> animations t = [] ->
  (exists schedule t',
      run schedule (snd (show t)) = Some t' /\ quiescent t' = true)
  /\ (forall schedule t',
         run schedule (snd (show t)) = Some t' -> quiescent t' = true ->
         open t' = true /\ disabled t' = false
         /\ body_hidden t' = false /\ popup_active t' = true
         /\ animations t' = []
         /\ history t'
            = history t
              ++ [emitted sl_show;
                  started (mkAnimation (next_animation t) popup_popup
                                       tooltip_show);
                  finished (mkAnimation (next_animation t) popup_popup
                                        tooltip_show);
                  emitted sl_after_show]).
Proof.
  destruct t as [o d bh pa an na ls st nd ch su hi].
  cbn [open disabled changed suspended animations history next_animation].
  intros -> -> -> -> ->. split; [apply run_completes|].
  intros schedule t'. apply show_course.
Qed.

Lemma X24_show_runs_its_course_witness :
  open resting_open = true /\ disabled resting_open = false
  /\ body_hidden resting_open = false /\ popup_active resting_open = true
  /\ animations resting_open = []
  /\ history resting_open
     = [emitted sl_show;
        started (mkAnimation 0 popup_popup tooltip_show);
        finished (mkAnimation 0 popup_popup tooltip_show);
        emitted sl_after_show].
Proof.
  apply (proj2 (X24_show_runs_its_course resting eq_refl eq_refl eq_refl
                                         eq_refl eq_refl)
               [run_watcher; resume 0; finish 0; resume 0] resting_open);
    vm_compute; reflexivity.
Defined.

(** X25. [hide()] on an open tooltip at rest, disabled or not, runs one
    course, whatever the order in which the loop is driven: sl-hide, the hide
    animation on [popup.popup] from start to end, sl-after-hide, and nothing
    else; at the end the tooltip is closed, the popup is inactive, the body
    is hidden and no animation is left. *)
Theorem X25_hide_runs_its_course (t : SlTooltip) :
  open t = true ->
  changed t = [] -> suspended t = [] -> animations t = [] ->
  (exists schedule t',
      run schedule (snd (hide t)) = Some t' /\ quiescent t' = true)
  /\ (forall schedule t',
         run schedule (snd (hide t)) = Some t' -> quiescent t' = true ->
         open t' = false /\ disabled t' = disabled t
         /\ body_hidden t' = true /\ popup_active t' = false
         /\ animations t' = []
         /\ history t'
            = history t
              ++ [emitted sl_hide;
                  started (mkAnimation (next_animation t) popup_popup
                                       tooltip_hide);
                  finished (mkAnimation (next_animation t) popup_popup
                                        tooltip_hide);
                  emitted sl_after_hide]).
Proof.
  destruct t as [o d bh pa an na ls st nd ch su hi].
  cbn [open disabled changed suspended animations history next_animation].
  intros -> -> -> ->. split; [apply run_completes|].
  intros schedule t'. apply hide_course.
Qed.

Lemma X25_hide_runs_its_course_witness :
  open (snd (drain 10 (snd (hide resting_open)))) = false
  /\ disabled (snd (drain 10 (snd (hide resting_open)))) = false
  /\ body_hidden (snd (drain 10 (snd (hide resting_open)))) = true
  /\ popup_active (snd (drain 10 (snd (hide resting_open)))) = false
  /\ animations (snd (drain 10 (snd (hide resting_open)))) = []
  /\ history (snd (drain 10 (snd (hide resting_open))))
     = history resting_open
       ++ [emitted sl_hide;
           started (mkAnimation 1 popup_popup tooltip_hide);
           finished (mkAnimation 1 popup_popup tooltip_hide);
           emitted sl_after_hide].
Proof.
  apply (proj2 (X25_hide_runs_its_course resting_open eq_refl eq_refl eq_refl
                                         eq_refl)
               [run_watcher; resume 0; finish 1; resume 0]
               (snd (drain 10 (snd (hide resting_open)))));
    vm_compute; reflexivity.
Defined.

Lemma quiescent_fields (t : SlTooltip) :
  quiescent t = true -> changed t = [] /\ suspended t = [].
Proof.
  unfold quiescent. destruct (changed t); [|discriminate].
  destruct (suspended t); [|discriminate]. split; reflexivity.
Qed.

Lemma rest_is_stuck (t : SlTooltip) (schedule : list Action) (t' : SlTooltip) :
  changed t = [] -> suspended t = [] -> animations t = [] ->
  run schedule t = Some t' -> t' = t.
Proof.
  destruct t as [o d bh pa an na ls st nd ch su hi].
  cbn [changed suspended animations]. intros -> -> ->.
  apply run_stuck. no_step.
Qed.

(** X26. A tooltip that is called one method at a time stays in step with
    [open]: starting from a tooltip at rest that is not disabled, with its
    body hidden exactly when it is closed and its popup active exactly when
    it is open, after any sequence of [show()] and [hide()] calls, each made
    once the tooltip has come to rest after the call before, the tooltip is
    again in such a state. *)
Theorem X26_calls_in_turn_keep_the_tooltip_in_step (t0 t : SlTooltip) :
  at_rest t0 -> used_in_turn t0 t -> at_rest t.
Proof.
  intros A U. induction U as [|t t' c schedule U IH R Q]; [exact A|].
  destruct IH as [C [S [An [D [B P]]]]].
  destruct (quiescent_fields t' Q) as [C' S'].
  destruct t as [o d bh pa an na ls st nd ch su hi].
  cbn [open disabled changed suspended animations body_hidden popup_active]
    in *.
  subst ch su an d bh pa.
  destruct c, o; cbn [call] in R.
  - apply rest_is_stuck in R; try reflexivity. subst t'.
    repeat split.
  - destruct (show_course _ _ _ _ _ _ _ schedule t' R Q)
      as [O [D [B [P [An _]]]]].
    unfold at_rest. rewrite O, D, B, P, An, C', S'. repeat split.
  - destruct (hide_course _ _ _ _ _ _ _ _ schedule t' R Q)
      as [O [D [B [P [An _]]]]].
    unfold at_rest. rewrite O, D, B, P, An, C', S'. repeat split.
  - apply rest_is_stuck in R; try reflexivity. subst t'.
    repeat split.
Qed.

Lemma resting_at_rest : at_rest resting.
Proof.
  repeat split.
Qed.

Lemma X26_calls_in_turn_keep_the_tooltip_in_step_witness :
  at_rest resting_open.
Proof.
  apply (X26_calls_in_turn_keep_the_tooltip_in_step resting resting_open
           resting_at_rest).
  apply (@called_and_rested resting resting resting_open call_show
           [run_watcher; resume 0; finish 0; resume 0]).
  - apply not_yet_used.
  - vm_compute. reflexivity.
  - vm_compute. reflexivity.
Defined.

(** *** What the loop starts and what it cancels *)

Lemma cancelled_on_body (an : list Animation) :
  Forall starts_on_popup_cancels_on_body
         (map cancelled
              (filter (fun a => element_eqb (target a) body) an)).
Proof.
  apply Forall_forall. intros e He. apply in_map_iff in He.
  destruct He as [a [<- Ha]]. apply filter_In in Ha.
  destruct Ha as [_ Ha]. cbn [starts_on_popup_cancels_on_body].
  destruct (target a); [reflexivity | discriminate Ha].
Qed.

Lemma finished_any (l : list Animation) :
  Forall starts_on_popup_cancels_on_body (map finished l).
Proof.
  apply Forall_forall. intros e He. apply in_map_iff in He.
  destruct He as [a [<- _]]. exact I.
Qed.

(** X27. Whatever step the event loop takes, what it adds to the history
    starts animations on [popup.popup] only and cancels animations on [body]
    only: the handler never cancels an animation it has started. *)
Theorem X27_the_loop_never_cancels_what_it_starts
        (a : Action) (t t' : SlTooltip) :
  step a t = Some t' ->
  exists added,
    history t' = history t ++ added
    /\ Forall starts_on_popup_cancels_on_body added.
Proof.
  intro H. step_cases a t H; rewrite <- ?app_assoc;
    first [ exists []; split; [symmetry; apply app_nil_r | apply Forall_nil]
          | eexists; split; [reflexivity|];
            repeat first [ apply Forall_nil
                         | apply cancelled_on_body
                         | apply finished_any
                         | apply Forall_cons; [cbn; auto|] ] ].
Qed.

Lemma X27_the_loop_never_cancels_what_it_starts_witness :
  exists added,
    history (handleOpenChange (set_changed [] (snd (show resting))))
    = history (snd (show resting)) ++ added
    /\ Forall starts_on_popup_cancels_on_body added.
Proof.
  apply (X27_the_loop_never_cancels_what_it_starts
           run_watcher (snd (show resting))).
  reflexivity.
Defined.

End TooltipRestFacts.
